(** * Quantum-Optimization: dependency graphs of circuits and the circuit dataset

    A shallow embedding of [model/util/create_dependency.py] (the builder of
    the dependency graph of the two-qubit gates of a circuit, and the writer
    of its edge list) and of [model/util/create_dataset.py] (the reader of the
    edge list and of the vertex attributes, and the generator of the data
    points of [CircuitDataset]), with the properties of both.

    Python integers are [Z]; positions in a list are [nat]; a Python
    exception is a value of [exn] carried by [result]; the directory of
    processed files is a finite map from the index in the file name to the
    saved [Data] object. *)

From Stdlib Require Import ZArith QArith String Ascii Lia.
From stdpp Require Import base tactics option list gmap strings sorting.

#[local] Open Scope Z_scope.
#[local] Open Scope nat_scope.

(** [simpl] unfolds the concatenation of strings on a constructor. *)
#[local] Arguments String.append !_ _ / : simpl nomatch.

(** ** Python values shared by the two files *)

Module Py.

(** The exceptions the modelled statements can raise. *)
Inductive exn : Type :=
| IndexError
| ValueError
| RuntimeError.

Inductive result (A : Type) : Type :=
| Ok (a : A)
| Raise (e : exn).

#[global] Arguments Ok {A} a.
#[global] Arguments Raise {A} e.

#[global] Instance result_ret : MRet result := λ A, @Ok A.

#[global] Instance result_bind : MBind result :=
  λ A B f m, match m with Ok a => f a | Raise e => Raise e end.

(** [range(lo, hi)] over list positions.  Python's [range] is empty when
    [hi <= lo]; the truncated subtraction of [nat] gives the same list, also
    where the Python bound is [n - 1] with [n = 0]. *)
Definition range (lo hi : nat) : list nat := seq lo (hi - lo).

(** [range(k)] for a Python integer [k] that may be negative. *)
Definition rangeZ (k : Z) : list nat := seq 0 (Z.to_nat k).

(** [l[i]] for a position [i >= 0]. *)
Definition getitem {A : Type} (l : list A) (i : nat) : result A :=
  match l !! i with
  | Some x => Ok x
  | None => Raise IndexError
  end.

(** [for x in xs: body], the body threading the loop's state. *)
Fixpoint for_each {A S : Type} (xs : list A) (body : A → S → result S) (s : S)
  : result S :=
  match xs with
  | [] => Ok s
  | x :: xs' => s' ← body x s; for_each xs' body s'
  end.

(** *** Text: [str.strip], [str.split], [int], [str] of an integer, and the
    lines of a text file.  The text is ASCII: a string is the sequence of its
    one-byte characters. *)

Definition LF : ascii := "010"%char.
Definition CR : ascii := "013"%char.

(** The ASCII characters [str.isspace] accepts: tab, line feed, vertical
    tab, form feed, carriage return, the four separators 28..31 and space. *)
Definition is_space (c : ascii) : bool :=
  let n := nat_of_ascii c in
  ((9 <=? n) && (n <=? 13)) || ((28 <=? n) && (n <=? 32)).

Fixpoint lstrip (s : string) : string :=
  match s with
  | EmptyString => EmptyString
  | String c s' => if is_space c then lstrip s' else s
  end.

Fixpoint rstrip (s : string) : string :=
  match s with
  | EmptyString => EmptyString
  | String c s' =>
      match rstrip s' with
      | EmptyString => if is_space c then EmptyString else String c EmptyString
      | r => String c r
      end
  end.

(** [s.strip()] *)
Definition strip (s : string) : string := rstrip (lstrip s).

(** [s.split()]: the maximal runs of characters that are not whitespace;
    [tok] is the run being read. *)
Fixpoint split_go (s tok : string) : list string :=
  match s with
  | EmptyString => match tok with EmptyString => [] | _ => [tok] end
  | String c s' =>
      if is_space c then
        match tok with
        | EmptyString => split_go s' EmptyString
        | _ => tok :: split_go s' EmptyString
        end
      else split_go s' (tok +:+ String c EmptyString)
  end.

Definition split (s : string) : list string := split_go s EmptyString.

Definition is_digit (c : ascii) : bool :=
  let n := nat_of_ascii c in (48 <=? n) && (n <=? 57).

Definition digit_value (c : ascii) : option Z :=
  if is_digit c then Some (Z.of_nat (nat_of_ascii c - 48)) else None.

Definition digit_char (d : Z) : ascii := ascii_of_nat (48 + Z.to_nat d).

(** The digits of [int(s)] in base ten: a digit, or one underscore between
    two digits; [after_digit] tells whether the last character was a digit. *)
Fixpoint int_digits (s : string) (acc : Z) (after_digit : bool) : option Z :=
  match s with
  | EmptyString => if after_digit then Some acc else None
  | String c s' =>
      if (c =? "_")%char then
        if after_digit then int_digits s' acc false else None
      else
        match digit_value c with
        | Some d => int_digits s' (10 * acc + d)%Z true
        | None => None
        end
  end.

(** [int(s)] for a string: surrounding whitespace is dropped, one sign is
    accepted, anything else raises [ValueError]. *)
Definition int (s : string) : result Z :=
  let r :=
    match strip s with
    | EmptyString => None
    | String c s' =>
        if (c =? "-")%char then Z.opp <$> int_digits s' 0%Z false
        else if (c =? "+")%char then int_digits s' 0%Z false
        else int_digits (String c s') 0%Z false
    end in
  match r with
  | Some z => Ok z
  | None => Raise ValueError
  end.

(** The decimal digits of [n >= 0], most significant first, put before
    [acc]. *)
Fixpoint str_digits (fuel : nat) (n : Z) (acc : string) : string :=
  match fuel with
  | O => acc
  | S fuel' =>
      let acc' := String (digit_char (n mod 10)) acc in
      if (n <? 10)%Z then acc' else str_digits fuel' (n / 10) acc'
  end.

(** [str(z)], which is what [f"{z}"] formats. *)
Definition str_int (z : Z) : string :=
  if (z <? 0)%Z then
    String "-" (str_digits (S (Z.to_nat (Z.log2 (- z)))) (- z) EmptyString)
  else str_digits (S (Z.to_nat (Z.log2 z))) z EmptyString.

(** Reading a file opened in text mode: ["\r\n"] and ["\r"] become
    ["\n"]. *)
Fixpoint universal_newlines (s : string) (after_cr : bool) : string :=
  match s with
  | EmptyString => EmptyString
  | String c s' =>
      if (c =? CR)%char then String LF (universal_newlines s' true)
      else if (c =? LF)%char then
        if after_cr then universal_newlines s' false
        else String LF (universal_newlines s' false)
      else String c (universal_newlines s' false)
  end.

(** The lines of a text, each with its line feed, the last one possibly
    without; [cur] is the line being read. *)
Fixpoint lines_go (s cur : string) : list string :=
  match s with
  | EmptyString => match cur with EmptyString => [] | _ => [cur] end
  | String c s' =>
      if (c =? LF)%char then
        (cur +:+ String LF EmptyString) :: lines_go s' EmptyString
      else lines_go s' (cur +:+ String c EmptyString)
  end.

(** [for line in f] on a file with the content [text]. *)
Definition file_lines (text : string) : list string :=
  lines_go (universal_newlines text false) EmptyString.

(** [s.split(sep)] for a separator of one character: the pieces between the
    separators, at least one; [cur] is the piece being read. *)
Fixpoint split_on (sep : ascii) (s cur : string) : list string :=
  match s with
  | EmptyString => [cur]
  | String c s' =>
      if (c =? sep)%char then cur :: split_on sep s' EmptyString
      else split_on sep s' (cur +:+ String c EmptyString)
  end.

(** A character other than [sep]. *)
Definition is_not (sep : ascii) (c : ascii) : bool := negb (c =? sep)%char.

(** Every character of [s] satisfies [P]. *)
Fixpoint all_chars (P : ascii → bool) (s : string) : bool :=
  match s with
  | EmptyString => true
  | String c s' => P c && all_chars P s'
  end.

(** The characters [str] of an integer is made of. *)
Definition is_token_char (c : ascii) : bool := is_digit c || (c =? "-")%char.

Definition not_space (c : ascii) : bool := negb (is_space c).

(** Neither a line feed nor a carriage return. *)
Definition is_plain (c : ascii) : bool :=
  negb (c =? LF)%char && negb (c =? CR)%char.

End Py.

Import Py.

(** ** create_dependency.py *)

Module Dependency.

(** One entry of [Q_circuit.data]: the gate's name and the indices of the
    qubits it acts on ([Q_circuit.find_bit(qubit).index] for each qubit). *)
Record instruction : Type := Instruction {
  name : string;
  qubits : list Z
}.

(** An element of [gates]: [tuple(qubit_indices)] of a two-qubit gate,
    component 0 the control and component 1 the target. *)
Definition gate : Type := (Z * Z)%type.

Definition control (g : gate) : Z := g.1.
Definition target (g : gate) : Z := g.2.

(** A value of [vertex_attr]. *)
Record attrs : Type := Attrs {
  gate_type : string;
  qubit_1 : Z;
  qubit_2 : Z
}.

(** [G]: a list of lists of gate indices. *)
Abbreviation adjacency := (list (list nat)).

(** "Gather all 2-qubit gates": the gates, and [vertex_attr] in insertion
    order, keyed by [len(gates) - 1]. *)
Fixpoint gather (data : list instruction) (gates : list gate)
    (vertex_attr : list (nat * attrs)) : list gate * list (nat * attrs) :=
  match data with
  | [] => (gates, vertex_attr)
  | ins :: data' =>
      match qubits ins with
      | [q0; q1] =>
          let gates' := gates ++ [(q0, q1)] in
          gather data' gates'
            (vertex_attr ++ [(length gates' - 1, Attrs (name ins) q0 q1)])
      | _ => gather data' gates vertex_attr
      end
  end.

(** [G[i].append(j)] *)
Definition append_at (G : adjacency) (i j : nat) : result adjacency :=
  row ← getitem G i; Ok (<[i := row ++ [j]]> G).

(** The inner loop [for j in range(i+1, n)] over the remaining [js]; the
    first branch is the one that ends in [break]. *)
Fixpoint scan (gates : list gate) (i : nat) (js : list nat) (G : adjacency)
  : result adjacency :=
  match js with
  | [] => Ok G
  | j :: js' =>
      gi ← getitem gates i;
      gj ← getitem gates j;
      if (gi.2 =? gj.2)%Z then append_at G i j
      else if (gi.2 =? gj.1)%Z then G' ← append_at G i j; scan gates i js' G'
      else scan gates i js' G
  end.

(** "Create the dependency graph" *)
Definition dependency_graph (gates : list gate) : result adjacency :=
  let n := length gates in
  let G := replicate n [] in
  for_each (range 0 (n - 1)) (λ i G, scan gates i (range (i + 1) n) G) G.

(** The pairs [(u, v)] in the order of the two loops of the writer,
    [for u, neigh in enumerate(G): for v in neigh]. *)
Definition edge_list (G : adjacency) : list (nat * nat) :=
  mjoin (imap (λ u neigh, (λ v, (u, v)) <$> neigh) G).

(** The text one [f.write(f"{u} {v}\n")] writes. *)
Definition edge_line (e : Z * Z) : string :=
  str_int e.1 +:+ " " +:+ str_int e.2 +:+ String LF EmptyString.

(** The same line without its line feed. *)
Definition edge_body (e : Z * Z) : string :=
  str_int e.1 +:+ " " +:+ str_int e.2.

(** The edge list in the interchange format: the lines of its edges, in
    order. *)
Fixpoint serialize_edges (es : list (Z * Z)) : string :=
  match es with
  | [] => EmptyString
  | e :: es' => edge_line e +:+ serialize_edges es'
  end.

(** "Edgelist": the content of the file at [edge_path] once it is closed. *)
Definition write_edges (G : adjacency) : string :=
  serialize_edges ((λ e, (Z.of_nat e.1, Z.of_nat e.2)) <$> edge_list G).

(** "JSON": [json.dump] writes the integer keys of [vertex_attr] as
    strings. *)
Definition dump_attrs (vertex_attr : list (nat * attrs))
  : list (string * attrs) :=
  (λ item, (str_int (Z.of_nat item.1), item.2)) <$> vertex_attr.

(** [create_dependency] from the parsed circuit to the contents of its two
    output files, the edge list and the vertex attributes. *)
Definition create_dependency (data : list instruction)
  : result (string * list (string * attrs)) :=
  let '(gates, vertex_attr) := gather data [] [] in
  G ← dependency_graph gates;
  Ok (write_edges G, dump_attrs vertex_attr).

(** [input_path.split('/')[-1].split('.')[0]] *)
Definition file_anker (input_path : string) : result string :=
  match last (split_on "/" input_path EmptyString) with
  | None => Raise IndexError
  | Some base => getitem (split_on "." base EmptyString) 0
  end.

(** [if not path: path = default], for an optional argument: [not path]
    holds for [None] and for the empty string. *)
Definition path_or (path : option string) (default : string) : string :=
  match path with
  | Some (String c p) => String c p
  | _ => default
  end.

(** "Output the graph": the paths of the edge list and of the attributes. *)
Definition output_paths (input_path : string)
    (edge_path attr_path : option string) : result (string * string) :=
  file_anker ← file_anker input_path;
  Ok (path_or edge_path (file_anker +:+ "_dependency.edges"),
      path_or attr_path (file_anker +:+ "_attr.json")).

(** The name and the qubit pair of an instruction on two qubits. *)
Definition two_qubit (ins : instruction) : option (string * gate) :=
  match qubits ins with
  | [q0; q1] => Some (name ins, (q0, q1))
  | _ => None
  end.

(** The entry of [vertex_attr] for the [k]-th gate gathered after [n]
    others. *)
Definition attr_at (n k : nat) (ng : string * gate) : nat * attrs :=
  (n + k, Attrs ng.1 ng.2.1 ng.2.2).

(** The gates with every qubit index [q] replaced by [f q]. *)
Definition relabel (f : Z → Z) (gates : list gate) : list gate :=
  (λ g, (f g.1, f g.2)) <$> gates.

(** *** Readings of the scan used to state its properties *)

(** The second rule as the code tests it, [gates[i][1] == gates[j][0]]:
    the control of the later gate is the target of the earlier one. *)
Definition rule2_code (gi gj : gate) : bool := (target gi =? control gj)%Z.

(** The second rule as the specification words it: the target of the later
    gate is the control of the earlier one. *)
Definition rule2_spec (gi gj : gate) : bool := (target gj =? control gi)%Z.

Definition rule1 (gi gj : gate) : bool := (target gi =? target gj)%Z.

(** [holds_at gates r i j]: both gates exist and are related by [r]. *)
Definition holds_at (gates : list gate) (r : gate → gate → bool) (i j : nat)
  : bool :=
  match gates !! i, gates !! j with
  | Some gi, Some gj => r gi gj
  | _, _ => false
  end.

(** The scan from [i] has stopped before it reaches [j]: some gate strictly
    between them has the target of gate [i]. *)
Definition stopped_before (gates : list gate) (i j : nat) : bool :=
  existsb (holds_at gates rule1 i) (range (i + 1) j).

(** The first-match rule in one condition: [j] is a destination of [i] when
    the scan is still running at [j] and rule 1 or rule 2 holds there. *)
Definition first_match (rule2 : gate → gate → bool) (gates : list gate)
    (i j : nat) : bool :=
  negb (stopped_before gates i j)
  && (holds_at gates rule1 i j || holds_at gates rule2 i j).

(** The adjacency structure the first-match rule determines. *)
Definition first_match_graph (rule2 : gate → gate → bool) (gates : list gate)
  : adjacency :=
  let n := length gates in
  (λ i, filter (λ j, first_match rule2 gates i j = true) (range (i + 1) n))
    <$> range 0 n.

(** Row [i] of the graph of the first-match rule. *)
Definition row_of (rule2 : gate → gate → bool) (gates : list gate) (i : nat)
  : list nat :=
  filter (λ j, first_match rule2 gates i j = true)
    (range (i + 1) (length gates)).

(** The destinations one run of the inner loop appends, as a function. *)
Fixpoint destinations (gates : list gate) (gi : gate) (js : list nat)
  : list nat :=
  match js with
  | [] => []
  | j :: js' =>
      match gates !! j with
      | None => []
      | Some gj =>
          if rule1 gi gj then [j]
          else if rule2_code gi gj then j :: destinations gates gi js'
          else destinations gates gi js'
      end
  end.

End Dependency.

(** ** create_dataset.py *)

Module Dataset.
Import Dependency.

(** The attributes [__init__] sets. *)
Record CircuitDataset : Type := {
  filename : string;
  max_num_edge_remove : nat;
  num_instances : nat;
  num_edges : nat
}.

(** [__init__]: the two constants, and the number of lines of the edge file
    that are not blank.  [edge_file] is the content of the file
    [filename + '_dependency.edges'] of the raw directory, the one [process]
    reads. *)
Definition init (filename edge_file : string) : CircuitDataset :=
  {| filename := filename;
     max_num_edge_remove := 2;
     num_instances := 10;
     num_edges :=
       length (filter (λ line, strip line ≠ EmptyString)
                 (file_lines edge_file)) |}.

(** [self.raw_files], which [raw_file_names] returns. *)
Definition raw_files (self : CircuitDataset) : list string :=
  [filename self +:+ "_attr.json"; filename self +:+ "_dependency.edges"].

(** [total] of [processed_file_names], a Python integer. *)
Definition processed_total (self : CircuitDataset) : Z :=
  foldl
    (λ total i,
       (total
        + (Z.of_nat (num_edges self) - Z.of_nat i + 1)
          * Z.of_nat (num_instances self))%Z)
    (Z.of_nat (num_instances self))
    (range 1 (max_num_edge_remove self + 1)).

Definition processed_file_names (self : CircuitDataset) : list string :=
  (λ ind, filename self +:+ "_" +:+ str_int (Z.of_nat ind) +:+ ".pt")
    <$> rangeZ (processed_total self).

(** [len] *)
Definition len (self : CircuitDataset) : nat :=
  length (processed_file_names self).

(** "Edges": one [[src, dst]] per line of the edge file. *)
Definition parse_edge (line : string) : result (Z * Z) :=
  match split (strip line) with
  | [a; b] => src ← int a; dst ← int b; Ok (src, dst)
  | _ => Raise ValueError
  end.

Definition read_edges (edge_file : string) : result (list (Z * Z)) :=
  for_each (file_lines edge_file)
    (λ line edges, e ← parse_edge line; Ok (edges ++ [e])) [].

(** The tensor [edges]: [torch.tensor([])] has one dimension of size 0 and
    [t()] returns it as it is; otherwise the tensor has the shape (2, m) and
    is given by its m columns. *)
Inductive edge_tensor : Type :=
| Tensor1D_empty
| Tensor2D (cols : list (Z * Z)).

Definition fits_long (z : Z) : bool := ((- 2 ^ 63 <=? z) && (z <? 2 ^ 63))%Z.

Definition fit_long (edges : list (Z * Z)) : bool :=
  forallb (λ e, fits_long e.1 && fits_long e.2) edges.

(** [torch.tensor(edges, dtype = torch.long).t().contiguous()]; an integer
    outside the 64-bit range is refused. *)
Definition tensor_long (edges : list (Z * Z)) : result edge_tensor :=
  if fit_long edges then
    match edges with
    | [] => Ok Tensor1D_empty
    | _ => Ok (Tensor2D edges)
    end
  else Raise RuntimeError.

(** [edges.size(1)] *)
Definition size1 (t : edge_tensor) : result nat :=
  match t with
  | Tensor1D_empty => Raise IndexError
  | Tensor2D cols => Ok (length cols)
  end.

(** [edges[:, lo:hi]] for [0 <= lo] and [0 <= hi] *)
Definition slice_cols (t : edge_tensor) (lo hi : nat) : result (list (Z * Z)) :=
  match t with
  | Tensor1D_empty => Raise IndexError
  | Tensor2D cols => Ok (drop lo (take hi cols))
  end.

Section Features.

(** The numbers of a [torch.float] tensor, and the conversion of a Python
    integer to one of them. *)
Context {float : Type} (to_float : Z → float).

(** "Features": one row [[gate, q1, q2]] per item of the attribute file. *)
Definition gate_feature (a : attrs) : Z :=
  if (gate_type a =? "cx")%string then 1%Z else 1%Z.

Definition feature_row (a : attrs) : list float :=
  [to_float (gate_feature a); to_float (qubit_1 a); to_float (qubit_2 a)].

Definition read_features (json_data : list (string * attrs))
  : list (list float) :=
  (λ item, feature_row item.2) <$> json_data.

(** [Data(x = ..., edge_index = ..., y = ...)] *)
Record Data : Type := {
  x : list (list float);
  edge_index : edge_tensor;
  y : nat
}.

(** A computation over the directory of processed files, which maps the
    [ind] of [f'{filename}_{ind}.pt'] to the object saved there.  What was
    saved stays saved when a later statement raises. *)
Definition M (A : Type) : Type := gmap nat Data → gmap nat Data * result A.

Definition M_ret {A : Type} (a : A) : M A := λ s, (s, Ok a).

Definition M_bind {A B : Type} (m : M A) (f : A → M B) : M B :=
  λ s, match m s with
       | (s', Ok a) => f a s'
       | (s', Raise e) => (s', Raise e)
       end.

Definition lift {A : Type} (r : result A) : M A := λ s, (s, r).

(** [torch.save(data, ...)] *)
Definition save (ind : nat) (data : Data) : M unit :=
  λ s, (<[ind := data]> s, Ok tt).

(** [for v in vs: body] in [M], the body threading the loop's variables. *)
Fixpoint for_M {A S : Type} (vs : list A) (body : A → S → M S) (st : S) : M S :=
  match vs with
  | [] => M_ret st
  | v :: vs' => M_bind (body v st) (for_M vs' body)
  end.

(** [generate_data]: [num_instances] saves of the same object; returns the
    next free [ind]. *)
Definition generate_data (self : CircuitDataset) (edges : edge_tensor)
    (node_features : list (list float)) (label : nat) (ind : nat) : M nat :=
  for_M (range 0 (num_instances self))
    (λ _ ind,
       let data := {| x := node_features; edge_index := edges; y := label |} in
       M_bind (save ind data) (λ _, M_ret (ind + 1)))
    ind.

(** The body of [for i in range(edges.size(1) - num_remove + 1)]; the loop
    variables are [(ind, graph_class)]. *)
Definition window_step (self : CircuitDataset) (edges : edge_tensor)
    (node_features : list (list float)) (num_remove i : nat)
    (st : nat * nat) : M (nat * nat) :=
  let '(ind, graph_class) := st in
  M_bind (lift (slice_cols edges 0 i)) (λ left,
  M_bind (lift (size1 edges)) (λ m,
  M_bind (lift (slice_cols edges (i + num_remove) m)) (λ right,
  let updated_edges := Tensor2D (left ++ right) in
  M_bind (generate_data self updated_edges node_features graph_class ind)
    (λ ind, M_ret (ind, graph_class + 1))))).

(** The body of [for num_remove in range(self.max_num_edge_remove + 1)]. *)
Definition remove_step (self : CircuitDataset) (edges : edge_tensor)
    (node_features : list (list float)) (num_remove : nat)
    (st : nat * nat) : M (nat * nat) :=
  let '(ind, graph_class) := st in
  if num_remove =? 0 then
    M_bind (generate_data self edges node_features graph_class ind)
      (λ ind, M_ret (ind, graph_class + 1))
  else
    M_bind (lift (size1 edges)) (λ m,
    for_M (rangeZ (Z.of_nat m - Z.of_nat num_remove + 1))
      (window_step self edges node_features num_remove)
      (ind, graph_class)).

(** "Generate datapoints", from [ind = 0] and [graph_class = 0]. *)
Definition generate_datapoints (self : CircuitDataset) (edges : edge_tensor)
    (node_features : list (list float)) : M (nat * nat) :=
  for_M (range 0 (max_num_edge_remove self + 1))
    (remove_step self edges node_features) (0, 0).

(** [process] *)
Definition process (self : CircuitDataset) (edge_file : string)
    (json_data : list (string * attrs)) : M unit :=
  M_bind (lift (read_edges edge_file)) (λ edges,
  M_bind (lift (tensor_long edges)) (λ edges,
  let node_features := read_features json_data in
  M_bind (generate_datapoints self edges node_features) (λ _, M_ret tt))).

(** [get]: the object loaded from the file of index [ind], if there is
    one. *)
Definition get (s : gmap nat Data) (ind : nat) : option Data := s !! ind.

(** *** The enumeration as the specification words it *)

(** [E] with the contiguous sub-range [i, i+w) removed. *)
Definition remove_window (E : list (Z * Z)) (i w : nat) : list (Z * Z) :=
  take i E ++ drop (i + w) E.

(** For the window size [w], the list without the window at each offset [i]
    from 0 to [m - w]; no offset when [m - w + 1 < 1]. *)
Definition windows (E : list (Z * Z)) (w : nat) : list (list (Z * Z)) :=
  (λ i, remove_window E i w)
    <$> rangeZ (Z.of_nat (length E) - Z.of_nat w + 1).

(** The full edge list, then the windows of each size from 1 to [W]. *)
Definition variants (E : list (Z * Z)) (W : nat) : list (list (Z * Z)) :=
  E :: mjoin (windows E <$> range 1 (W + 1)).

(** The attribute file with every gate-type tag [t] replaced by [f t]. *)
Definition retag (f : string → string) (json_data : list (string * attrs))
  : list (string * attrs) :=
  (λ item,
     (item.1, Attrs (f (gate_type item.2)) (qubit_1 item.2) (qubit_2 item.2)))
    <$> json_data.

(** A computation that only adds or replaces files: on a directory [s] it
    does what it does on the empty directory, over [s]. *)
Definition framed {A : Type} (m : M A) : Prop :=
  ∀ s, m s = ((m ∅).1 ∪ s, (m ∅).2).

(** [R] copies of each variant, the variants labelled from [k] on. *)
Fixpoint samples_from (R : nat) (node_features : list (list float)) (k : nat)
    (vs : list (list (Z * Z))) : list Data :=
  match vs with
  | [] => []
  | v :: vs' =>
      replicate R {| x := node_features; edge_index := Tensor2D v; y := k |}
        ++ samples_from R node_features (S k) vs'
  end.

End Features.

(** [R × (1 + Σ_{w=1}^{W} (m − w + 1))] *)
Definition size_formula (m : Z) (W : nat) (R : Z) : Z :=
  (R * (1 + foldr Z.add 0 ((λ w, m - Z.of_nat w + 1) <$> range 1 (W + 1))))%Z.

End Dataset.

(** ** A circuit used as a concrete input *)

Module Example.
Import Dependency Dataset.

(** Four two-qubit gates and one one-qubit gate. *)
Definition circuit : list instruction :=
  [ Instruction "cx" [0; 1]%Z; Instruction "h" [0%Z];
    Instruction "cx" [1; 2]%Z; Instruction "cz" [3; 2]%Z;
    Instruction "cx" [2; 1]%Z ].

(** The four edges of its dependency graph. *)
Definition edges : list (Z * Z) := [(0, 1); (0, 3); (1, 2); (2, 3)]%Z.

Definition edge_file : string := serialize_edges edges.

(** The attribute file: [json.dump] writes the keys of [vertex_attr] as
    strings. *)
Definition attr_file : list (string * attrs) :=
  [ ("0", Attrs "cx" 0 1); ("1", Attrs "cx" 1 2);
    ("2", Attrs "cz" 3 2); ("3", Attrs "cx" 2 1) ]%Z%string.

(** The dataset object built for this edge file. *)
Definition dataset : CircuitDataset := init "circuit" edge_file.

(** Numbers kept exact stand for the floating-point numbers. *)
Definition exact : Z → Q := inject_Z.

End Example.

(** ** Properties of the text functions *)

Module PyFacts.

Lemma elem_of_range (lo hi k : nat) : k ∈ range lo hi ↔ lo ≤ k < hi.
Proof. unfold range. rewrite elem_of_seq. lia. Qed.

Lemma append_nil_r (s : string) : s +:+ EmptyString = s.
Proof. induction s as [| c s IH]; simpl; congruence. Qed.

Lemma append_assoc (s1 s2 s3 : string) :
  (s1 +:+ s2) +:+ s3 = s1 +:+ (s2 +:+ s3).
Proof. induction s1 as [| c s1 IH]; simpl; congruence. Qed.

Lemma append_snoc (s1 s2 : string) (c : ascii) :
  (s1 +:+ String c EmptyString) +:+ s2 = s1 +:+ String c s2.
Proof. by rewrite append_assoc. Qed.

Lemma all_chars_app P (s1 s2 : string) :
  all_chars P (s1 +:+ s2) = all_chars P s1 && all_chars P s2.
Proof.
  induction s1 as [| c s1 IH]; simpl; [done |].
  by rewrite IH, andb_assoc.
Qed.

Lemma all_chars_impl (P Q : ascii → bool) (s : string) :
  (∀ c, P c = true → Q c = true) →
  all_chars P s = true → all_chars Q s = true.
Proof.
  intros HPQ. induction s as [| c s IH]; simpl; [done |].
  intros [Hc Hs]%andb_prop. rewrite (HPQ c Hc). by apply IH.
Qed.

Lemma token_char_not_space c : is_token_char c = true → not_space c = true.
Proof. destruct c as [[] [] [] [] [] [] [] []]; by vm_compute. Qed.

Lemma not_space_plain c : not_space c = true → is_plain c = true.
Proof. destruct c as [[] [] [] [] [] [] [] []]; by vm_compute. Qed.

Lemma digit_token_char c : is_digit c = true → is_token_char c = true.
Proof. unfold is_token_char. by intros ->. Qed.

Lemma digit_not_sign c :
  is_digit c = true →
  (c =? "-")%char = false ∧ (c =? "+")%char = false ∧ (c =? "_")%char = false.
Proof. destruct c as [[] [] [] [] [] [] [] []]; by vm_compute. Qed.

Lemma digit_char_spec (d : Z) :
  (0 ≤ d < 10)%Z →
  is_digit (digit_char d) = true ∧ digit_value (digit_char d) = Some d.
Proof.
  intros Hd.
  assert (d = 0 ∨ d = 1 ∨ d = 2 ∨ d = 3 ∨ d = 4 ∨ d = 5 ∨ d = 6 ∨ d = 7
          ∨ d = 8 ∨ d = 9)%Z as Hcases by lia.
  repeat destruct Hcases as [-> | Hcases]; try subst d; by vm_compute.
Qed.

(** *** [strip] and [split] on the text of one edge *)

Lemma lstrip_not_space c (s : string) :
  not_space c = true → lstrip (String c s) = String c s.
Proof. unfold not_space. simpl. by intros ->%negb_true_iff. Qed.

Lemma lstrip_token (t s : string) :
  t ≠ EmptyString → all_chars not_space t = true →
  lstrip (t +:+ s) = t +:+ s.
Proof.
  destruct t as [| c t]; [done |]. simpl.
  intros _ [Hc _]%andb_prop. apply negb_true_iff in Hc. by rewrite Hc.
Qed.

Lemma rstrip_not_space (t w : string) :
  all_chars not_space t = true → rstrip (t +:+ w) = t +:+ rstrip w.
Proof.
  induction t as [| c t IH]; simpl; [done |].
  intros [Hc Ht]%andb_prop. rewrite (IH Ht).
  apply negb_true_iff in Hc. rewrite Hc. by destruct (t +:+ rstrip w).
Qed.

Lemma strip_token (t : string) :
  all_chars not_space t = true → strip t = t.
Proof.
  intros Ht. unfold strip.
  assert (lstrip t = t) as ->.
  { destruct t as [| c t]; [done |]. simpl in Ht.
    apply andb_prop in Ht as [Hc _]. by apply lstrip_not_space. }
  rewrite <- (append_nil_r t) at 1. rewrite rstrip_not_space by done.
  simpl. apply append_nil_r.
Qed.

Lemma split_go_not_space (t s tok : string) :
  all_chars not_space t = true →
  split_go (t +:+ s) tok = split_go s (tok +:+ t).
Proof.
  revert tok. induction t as [| c t IH]; intros tok; simpl.
  - by rewrite append_nil_r.
  - intros [Hc Ht]%andb_prop. apply negb_true_iff in Hc. rewrite Hc.
    by rewrite IH, append_snoc.
Qed.

Lemma split_two_tokens (a b : string) :
  a ≠ EmptyString → b ≠ EmptyString →
  all_chars not_space a = true → all_chars not_space b = true →
  split (a +:+ " " +:+ b) = [a; b].
Proof.
  intros Ha Hb Hsa Hsb. unfold split.
  rewrite split_go_not_space by done. simpl.
  destruct a as [| c a]; [done |]. f_equal.
  rewrite <- (append_nil_r b) at 1. rewrite split_go_not_space by done.
  simpl. by destruct b.
Qed.

(** *** [int] after [str] *)

Lemma str_digits_all_digits fuel : ∀ (n : Z) (acc : string),
  (0 ≤ n)%Z → all_chars is_digit acc = true →
  all_chars is_digit (str_digits fuel n acc) = true.
Proof.
  induction fuel as [| fuel IH]; intros n acc Hn Hacc; cbn [str_digits];
    [done |].
  assert (all_chars is_digit (String (digit_char (n mod 10)) acc) = true)
    as Hacc'.
  { cbn [all_chars]. rewrite Hacc, andb_true_r.
    apply digit_char_spec. apply Z.mod_pos_bound. lia. }
  destruct (n <? 10)%Z; [done |].
  apply IH; [| done]. apply Z.div_pos; lia.
Qed.

Lemma str_digits_nonempty fuel (n : Z) (acc : string) :
  str_digits (S fuel) n acc ≠ EmptyString.
Proof.
  assert (∀ fuel n acc, acc ≠ EmptyString →
            str_digits fuel n acc ≠ EmptyString) as Hmono.
  { clear. induction fuel as [| fuel IH]; intros n acc Hacc; cbn [str_digits];
      [done |].
    destruct (n <? 10)%Z; [done |]. by apply IH. }
  cbn [str_digits]. destruct (n <? 10)%Z; [done |]. by apply Hmono.
Qed.

(** Reading the digits written for [n] continues with [n] added below the
    digits read before. *)
Lemma int_digits_str_digits fuel : ∀ (n : Z) (acc : string) (a : Z) b,
  (0 ≤ n < 2 ^ Z.of_nat (S fuel))%Z →
  ∃ k : Z,
    int_digits (str_digits (S fuel) n acc) a b
    = int_digits acc (a * 10 ^ k + n)%Z true ∧ (0 ≤ k)%Z.
Proof.
  induction fuel as [| fuel IH]; intros n acc a b Hn;
    cbn [str_digits];
    (destruct (digit_char_spec (n mod 10)) as [Hdig Hval];
       [apply Z.mod_pos_bound; lia |]);
    destruct (digit_not_sign _ Hdig) as (_ & _ & Hund);
    destruct (n <? 10)%Z eqn:Hlt.
  - apply Z.ltb_lt in Hlt. exists 1%Z. split; [| lia].
    cbn [int_digits]. rewrite Hund, Hval. f_equal.
    rewrite Z.mod_small by lia. lia.
  - apply Z.ltb_ge in Hlt. simpl in Hn. lia.
  - apply Z.ltb_lt in Hlt. exists 1%Z. split; [| lia].
    cbn [int_digits]. rewrite Hund, Hval. f_equal.
    rewrite Z.mod_small by lia. lia.
  - apply Z.ltb_ge in Hlt.
    destruct (IH (n / 10)%Z (String (digit_char (n mod 10)) acc) a b)
      as (k & Hk & Hk0).
    { split; [apply Z.div_pos; lia |].
      apply Z.div_lt_upper_bound; [lia |].
      rewrite (Nat2Z.inj_succ (S fuel)), Z.pow_succ_r in Hn by lia. lia. }
    exists (k + 1)%Z. split; [| lia].
    cbn [str_digits] in Hk. rewrite Hk.
    cbn [int_digits]. rewrite Hund, Hval. f_equal.
    rewrite Z.pow_add_r, Z.pow_1_r by lia.
    pose proof (Z.div_mod n 10). lia.
Qed.

Lemma int_str_digits (n : Z) :
  (0 ≤ n)%Z →
  int_digits (str_digits (S (Z.to_nat (Z.log2 n))) n EmptyString) 0 false
  = Some n.
Proof.
  intros Hn.
  assert (0 ≤ n < 2 ^ Z.of_nat (S (Z.to_nat (Z.log2 n))))%Z as Hfuel.
  { split; [done |].
    rewrite Nat2Z.inj_succ, Z2Nat.id by apply Z.log2_nonneg.
    destruct (decide (n = 0%Z)) as [-> | Hne]; [done |].
    apply Z.log2_spec. lia. }
  destruct (int_digits_str_digits _ n EmptyString 0%Z false Hfuel)
    as (k & Hk & _).
  rewrite Hk. cbn [int_digits]. f_equal; lia.
Qed.

Lemma str_int_token (z : Z) : all_chars is_token_char (str_int z) = true.
Proof.
  unfold str_int. destruct (z <? 0)%Z eqn:Hz.
  - apply Z.ltb_lt in Hz. cbn [all_chars]. apply andb_true_intro. split; [done |].
    apply (all_chars_impl is_digit); [apply digit_token_char |].
    apply str_digits_all_digits; [lia | done].
  - apply Z.ltb_ge in Hz.
    apply (all_chars_impl is_digit); [apply digit_token_char |].
    apply str_digits_all_digits; [lia | done].
Qed.

Lemma str_int_not_space (z : Z) : all_chars not_space (str_int z) = true.
Proof.
  apply (all_chars_impl is_token_char); [apply token_char_not_space |].
  apply str_int_token.
Qed.

Lemma str_int_nonempty (z : Z) : str_int z ≠ EmptyString.
Proof.
  unfold str_int. destruct (z <? 0)%Z; [done |]. apply str_digits_nonempty.
Qed.

(** [int(str(z))] is [z]. *)
Lemma int_str_int (z : Z) : int (str_int z) = Ok z.
Proof.
  unfold int. rewrite strip_token by apply str_int_not_space.
  unfold str_int. destruct (z <? 0)%Z eqn:Hz.
  - apply Z.ltb_lt in Hz. simpl (_ =? _)%char. cbv iota.
    rewrite int_str_digits by lia. simpl. f_equal. lia.
  - apply Z.ltb_ge in Hz.
    pose proof (str_digits_all_digits (S (Z.to_nat (Z.log2 z))) z EmptyString
                  Hz eq_refl) as Hdig.
    pose proof (int_str_digits z Hz) as Hint.
    destruct (str_digits _ z EmptyString) as [| c s] eqn:Hs.
    { by apply str_digits_nonempty in Hs. }
    simpl in Hdig. apply andb_prop in Hdig as [Hc _].
    destruct (digit_not_sign c Hc) as (-> & -> & _). by rewrite Hint.
Qed.

(** *** The lines of a text *)

Lemma is_plain_spec c :
  is_plain c = true → (c =? CR)%char = false ∧ (c =? LF)%char = false.
Proof.
  unfold is_plain. intros [H1 H2]%andb_prop.
  by apply negb_true_iff in H1, H2.
Qed.

Lemma universal_newlines_plain (t s : string) :
  all_chars is_plain t = true →
  universal_newlines (t +:+ String LF s) false
  = t +:+ String LF (universal_newlines s false).
Proof.
  induction t as [| c t IH]; [done |]. simpl.
  intros [Hc Ht]%andb_prop. destruct (is_plain_spec c Hc) as [-> ->].
  by rewrite IH.
Qed.

Lemma lines_go_plain (t s : string) : ∀ cur : string,
  all_chars is_plain t = true →
  lines_go (t +:+ s) cur = lines_go s (cur +:+ t).
Proof.
  induction t as [| c t IH]; intros cur; simpl.
  - by rewrite append_nil_r.
  - intros [Hc Ht]%andb_prop. destruct (is_plain_spec c Hc) as [_ ->].
    by rewrite IH, append_snoc.
Qed.

(** A text made of lines without carriage returns is read as these lines. *)
Lemma file_lines_plain (bodies : list string) :
  Forall (λ t, all_chars is_plain t = true) bodies →
  file_lines
    (foldr (λ t text, t +:+ String LF text) EmptyString bodies)
  = (λ t, t +:+ String LF EmptyString) <$> bodies.
Proof.
  unfold file_lines. induction 1 as [| t bodies Ht _ IH]; [done |].
  cbn [foldr fmap list_fmap]. rewrite universal_newlines_plain by done.
  rewrite lines_go_plain by done. simpl. by rewrite IH.
Qed.

End PyFacts.

(** ** Properties of the dependency graph *)

Module DependencyFacts.
Import Dependency PyFacts.

Lemma holds_at_Some (gates : list gate) r i j gi gj :
  gates !! i = Some gi → gates !! j = Some gj →
  holds_at gates r i j = r gi gj.
Proof. intros Hi Hj. unfold holds_at. by rewrite Hi, Hj. Qed.

Lemma stopped_before_true (gates : list gate) i j :
  stopped_before gates i j = true ↔
  ∃ k, i < k < j ∧ holds_at gates rule1 i k = true.
Proof.
  unfold stopped_before. rewrite existsb_exists. split.
  - intros (k & Hk & Hr). apply list_elem_of_In, elem_of_range in Hk.
    exists k. split; [lia | done].
  - intros (k & Hk & Hr). exists k. split; [| done].
    apply list_elem_of_In, elem_of_range. lia.
Qed.

Lemma stopped_before_false (gates : list gate) i j :
  stopped_before gates i j = false ↔
  ∀ k, i < k < j → holds_at gates rule1 i k = false.
Proof.
  rewrite <- not_true_iff_false, stopped_before_true. split.
  - intros Hn k Hk. apply not_true_iff_false. intros Hr. apply Hn. eauto.
  - intros Hall (k & Hk & Hr). rewrite (Hall k Hk) in Hr. done.
Qed.

(** One run of the inner loop replaces row [i] of [G] by the row extended
    with [destinations]; it raises nothing when every index is in range. *)
Lemma scan_destinations (gates : list gate) i gi :
  gates !! i = Some gi →
  ∀ js (G : adjacency) row,
    G !! i = Some row →
    Forall (λ j, j < length gates) js →
    scan gates i js G = Ok (<[i := row ++ destinations gates gi js]> G).
Proof.
  intros Hgi js. induction js as [| j js IH]; intros G row Hrow Hjs.
  - cbn [scan destinations]. rewrite app_nil_r, list_insert_id; done.
  - apply Forall_cons in Hjs as [Hj Hjs].
    destruct (lookup_lt_is_Some_2 gates j Hj) as [gj Hgj].
    cbn [scan destinations]. unfold getitem at 1 2.
    rewrite Hgi, Hgj. cbn [mbind result_bind].
    unfold rule1, rule2_code, target, control.
    destruct (gi.2 =? gj.2)%Z.
    { unfold append_at, getitem. by rewrite Hrow. }
    destruct (gi.2 =? gj.1)%Z; [| by apply IH].
    unfold append_at at 1. unfold getitem. rewrite Hrow. simpl.
    rewrite (IH _ (row ++ [j])); [| | done].
    + by rewrite list_insert_insert_eq, <- app_assoc.
    + apply list_lookup_insert_eq. by eapply lookup_lt_Some.
Qed.

(** Once a gate with the target of gate [i] has been passed, the
    first-match rule accepts nothing more. *)
Lemma filter_first_match_stopped rule2 (gates : list gate) i k a len :
  i < k < a → holds_at gates rule1 i k = true →
  filter (λ j, first_match rule2 gates i j = true) (seq a len) = [].
Proof.
  intros Hk Hr. revert a Hk. induction len as [| len IH]; intros a Hk; [done |].
  simpl. rewrite filter_cons_False.
  - apply IH. lia.
  - unfold first_match.
    assert (stopped_before gates i a = true) as ->; [| simpl; congruence].
    apply stopped_before_true. eauto.
Qed.

(** The loop with its [break] computes the filter by the first-match rule. *)
Lemma destinations_first_match (gates : list gate) i gi :
  gates !! i = Some gi →
  ∀ len a,
    i < a → a + len ≤ length gates →
    stopped_before gates i a = false →
    destinations gates gi (seq a len)
    = filter (λ j, first_match rule2_code gates i j = true) (seq a len).
Proof.
  intros Hgi len. induction len as [| len IH]; intros a Hia Hlen Hrun; [done |].
  destruct (lookup_lt_is_Some_2 gates a ltac:(lia)) as [ga Hga].
  cbn [seq destinations]. rewrite Hga.
  assert (first_match rule2_code gates i a
          = rule1 gi ga || rule2_code gi ga) as Hfm.
  { unfold first_match. rewrite Hrun.
    by rewrite !(holds_at_Some _ _ _ _ gi ga). }
  destruct (rule1 gi ga) eqn:Hr1.
  - rewrite filter_cons_True by (by rewrite Hfm).
    rewrite (filter_first_match_stopped _ gates i a); [done | lia |].
    by rewrite (holds_at_Some _ _ _ _ gi ga).
  - assert (stopped_before gates i (S a) = false) as Hrun'.
    { apply stopped_before_false. intros k Hk.
      destruct (decide (k = a)) as [-> | Hne].
      - by rewrite (holds_at_Some _ _ _ _ gi ga).
      - eapply stopped_before_false; [exact Hrun | lia]. }
    destruct (rule2_code gi ga) eqn:Hr2.
    + rewrite filter_cons_True by (by rewrite Hfm).
      f_equal. apply IH; [lia | lia | done].
    + rewrite filter_cons_False by (by rewrite Hfm).
      apply IH; [lia | lia | done].
Qed.

Lemma stopped_before_next (gates : list gate) i :
  stopped_before gates i (i + 1) = false.
Proof. apply stopped_before_false. intros k Hk. lia. Qed.

(** The outer loop fills the rows in increasing order of [i]. *)
Lemma outer_loop_rows (gates : list gate) len :
  ∀ a,
    a + len ≤ length gates - 1 →
    for_each (seq a len)
      (λ i G, scan gates i (range (i + 1) (length gates)) G)
      ((row_of rule2_code gates <$> seq 0 a)
         ++ replicate (length gates - a) [])
    = Ok ((row_of rule2_code gates <$> seq 0 (a + len))
            ++ replicate (length gates - (a + len)) []).
Proof.
  induction len as [| len IH]; intros a Hlen.
  - simpl. by rewrite Nat.add_0_r.
  - cbn [seq for_each].
    destruct (lookup_lt_is_Some_2 gates a ltac:(lia)) as [ga Hga].
    rewrite (scan_destinations gates a ga Hga _ _ []).
    + cbn [mbind result_bind app]. replace (a + S len) with (S a + len) by lia.
      rewrite <- IH by lia. f_equal.
      replace (length gates - a) with (S (length gates - S a)) by lia.
      rewrite insert_app_r_alt by (rewrite length_fmap, length_seq; lia).
      rewrite length_fmap, length_seq, Nat.sub_diag.
      rewrite seq_S, fmap_app, <- app_assoc. simpl. do 2 f_equal.
      unfold row_of, range.
      rewrite (destinations_first_match gates a ga Hga); try done; try lia.
      apply stopped_before_next.
    + rewrite lookup_app_r by (rewrite length_fmap, length_seq; lia).
      rewrite length_fmap, length_seq, Nat.sub_diag.
      apply lookup_replicate_2. lia.
    + apply Forall_forall. intros j Hj. apply elem_of_range in Hj. lia.
Qed.

(** The builder raises nothing and returns the graph of the first-match
    rule with the second rule as the code tests it. *)
Lemma first_match_graph_rows rule2 (gates : list gate) :
  first_match_graph rule2 gates = row_of rule2 gates <$> seq 0 (length gates).
Proof. unfold first_match_graph, range. by rewrite Nat.sub_0_r. Qed.

(** The builder raises nothing and returns the graph of the first-match
    rule with the second rule as the code tests it. *)
Lemma dependency_graph_first_match (gates : list gate) :
  dependency_graph gates = Ok (first_match_graph rule2_code gates).
Proof.
  rewrite first_match_graph_rows. unfold dependency_graph. cbv zeta.
  unfold range at 1. rewrite Nat.sub_0_r.
  pose proof (outer_loop_rows gates (length gates - 1) 0) as H.
  cbn [seq fmap list_fmap app] in H. rewrite Nat.sub_0_r in H.
  rewrite H by lia. f_equal.
  remember (length gates) as n eqn:Hn.
  destruct n as [| n]; [done |].
  replace (0 + (S n - 1)) with n by lia. replace (S n - n) with 1 by lia.
  rewrite seq_S, fmap_app. cbn [replicate fmap list_fmap]. do 2 f_equal.
  unfold row_of, range. rewrite <- Hn.
  replace (S n - (0 + n + 1)) with 0 by lia. done.
Qed.

(** *** The rows and the edge list of the graph *)

Lemma first_match_graph_lookup rule2 (gates : list gate) i :
  i < length gates →
  first_match_graph rule2 gates !! i = Some (row_of rule2 gates i).
Proof.
  intros Hi. rewrite first_match_graph_rows, list_lookup_fmap.
  by rewrite lookup_seq_lt.
Qed.

Lemma first_match_graph_lookup_inv rule2 (gates : list gate) i row :
  first_match_graph rule2 gates !! i = Some row →
  i < length gates ∧ row = row_of rule2 gates i.
Proof.
  intros Hrow.
  assert (i < length gates) as Hi.
  { apply lookup_lt_Some in Hrow.
    by rewrite first_match_graph_rows, length_fmap, length_seq in Hrow. }
  rewrite first_match_graph_lookup in Hrow by done. by injection Hrow as <-.
Qed.

Lemma elem_of_row_of rule2 (gates : list gate) i j :
  j ∈ row_of rule2 gates i ↔
  first_match rule2 gates i j = true ∧ i < j < length gates.
Proof.
  unfold row_of. rewrite list_elem_of_filter, elem_of_range.
  split; intros [? ?]; (split; [done | lia]).
Qed.

Lemma sorted_filter_seq (P : nat → Prop) `{!∀ j, Decision (P j)} n : ∀ a,
  StronglySorted lt (filter P (seq a n)).
Proof.
  induction n as [| n IH]; intros a; [constructor |].
  cbn [seq]. rewrite filter_cons. destruct (decide (P a)); [| apply IH].
  constructor; [apply IH |].
  apply Forall_forall. intros j [_ Hj%elem_of_seq]%list_elem_of_filter. lia.
Qed.

Lemma row_of_sorted rule2 (gates : list gate) i :
  StronglySorted lt (row_of rule2 gates i).
Proof. apply sorted_filter_seq. Qed.

Lemma row_of_NoDup rule2 (gates : list gate) i : NoDup (row_of rule2 gates i).
Proof. apply NoDup_filter, NoDup_seq. Qed.

Lemma elem_of_edge_list (G : adjacency) u v :
  (u, v) ∈ edge_list G ↔ ∃ row, G !! u = Some row ∧ v ∈ row.
Proof.
  unfold edge_list. rewrite list_elem_of_join. split.
  - intros (l & Hin & (i & row & -> & Hrow)%elem_of_lookup_imap).
    apply list_elem_of_fmap in Hin as (v' & [= -> ->] & Hv). eauto.
  - intros (row & Hrow & Hv). exists ((λ v, (u, v)) <$> row). split.
    + by apply list_elem_of_fmap_2.
    + apply elem_of_lookup_imap. eauto.
Qed.

(** The edge list of a graph whose rows have no duplicates has none. *)
Lemma NoDup_edge_list (G : adjacency) :
  Forall NoDup G → NoDup (edge_list G).
Proof.
  unfold edge_list.
  assert (∀ k,
    Forall NoDup G →
    NoDup (mjoin (imap (λ u neigh, (λ v, (k + u, v)) <$> neigh) G))
    ∧ ∀ e, e ∈ mjoin (imap (λ u neigh, (λ v, (k + u, v)) <$> neigh) G)
           → k ≤ e.1) as H; [| intros HG; by apply (H 0)].
  induction G as [| row G IH]; intros k HG.
  { split; [constructor | by intros e Hin%elem_of_nil]. }
  apply Forall_cons in HG as [Hrow HG].
  destruct (IH (S k) HG) as [Hnd Hge].
  assert (imap ((λ u neigh, (λ v, (k + u, v)) <$> neigh) ∘ S) G
          = imap (λ u neigh, (λ v, (S k + u, v)) <$> neigh) G) as Himap.
  { apply imap_ext. intros u neigh _. simpl.
    by replace (k + S u) with (S (k + u)) by lia. }
  cbn [imap mjoin list_join]. rewrite Himap. split.
  - apply NoDup_app. split; [| split; [| done]].
    + apply NoDup_fmap_2_strong; [| done]. by intros v1 v2 _ _ [= ->].
    + intros e (v & -> & _)%list_elem_of_fmap Hin. apply Hge in Hin.
      simpl in Hin. lia.
  - intros e [(v & -> & _)%list_elem_of_fmap | Hin%Hge]%elem_of_app;
      simpl in *; lia.
Qed.

End DependencyFacts.


(** ** Properties of the edge file and of the dataset *)

Module DatasetFacts.
Import Dependency Dataset PyFacts.

(** *** The edge list as text *)

Lemma edge_line_body (e : Z * Z) :
  edge_line e = edge_body e +:+ String LF EmptyString.
Proof. unfold edge_line, edge_body. by rewrite !append_assoc. Qed.

Lemma edge_body_plain (e : Z * Z) : all_chars is_plain (edge_body e) = true.
Proof.
  unfold edge_body. rewrite !all_chars_app.
  rewrite (all_chars_impl not_space is_plain (str_int e.1) not_space_plain)
    by apply str_int_not_space.
  rewrite (all_chars_impl not_space is_plain (str_int e.2) not_space_plain)
    by apply str_int_not_space.
  done.
Qed.

Lemma serialize_edges_bodies (es : list (Z * Z)) :
  serialize_edges es
  = foldr (λ t text, t +:+ String LF text) EmptyString (edge_body <$> es).
Proof.
  induction es as [| e es IH]; [done |].
  cbn [serialize_edges fmap list_fmap foldr].
  by rewrite IH, edge_line_body, append_snoc.
Qed.

Lemma file_lines_serialize (es : list (Z * Z)) :
  file_lines (serialize_edges es) = edge_line <$> es.
Proof.
  rewrite serialize_edges_bodies, file_lines_plain.
  - rewrite <- list_fmap_compose. apply list_fmap_ext.
    intros _ e _. simpl. by rewrite edge_line_body.
  - apply Forall_fmap, Forall_forall. intros e _. apply edge_body_plain.
Qed.

Lemma strip_two_tokens (a b : string) :
  a ≠ EmptyString → b ≠ EmptyString →
  all_chars not_space a = true → all_chars not_space b = true →
  strip (a +:+ " " +:+ b +:+ String LF EmptyString) = a +:+ " " +:+ b.
Proof.
  intros Ha Hb Hsa Hsb. unfold strip.
  rewrite lstrip_token, rstrip_not_space by done. f_equal.
  assert (rstrip (b +:+ String LF EmptyString) = b) as Hr.
  { rewrite rstrip_not_space by done. apply append_nil_r. }
  simpl. rewrite Hr. by destruct b.
Qed.

Lemma strip_edge_line (e : Z * Z) : strip (edge_line e) = edge_body e.
Proof.
  apply strip_two_tokens;
    apply str_int_nonempty || apply str_int_not_space.
Qed.

Lemma parse_edge_line (e : Z * Z) : parse_edge (edge_line e) = Ok e.
Proof.
  unfold parse_edge. rewrite strip_edge_line. unfold edge_body.
  rewrite split_two_tokens
    by (apply str_int_nonempty || apply str_int_not_space).
  rewrite !int_str_int. by destruct e.
Qed.

(** Reading the serialized edge list gives the edge list back. *)
Lemma read_edges_serialize (es : list (Z * Z)) :
  read_edges (serialize_edges es) = Ok es.
Proof.
  unfold read_edges. rewrite file_lines_serialize.
  assert (∀ acc,
    for_each (edge_line <$> es)
      (λ line edges, e ← parse_edge line; Ok (edges ++ [e])) acc
    = Ok (acc ++ es)) as H; [| apply H].
  induction es as [| e es IH]; intros acc; simpl.
  - by rewrite app_nil_r.
  - rewrite parse_edge_line. simpl. by rewrite IH, <- app_assoc.
Qed.

(** *** The directory of processed files as a log of saves *)

Section Log.
Context {float : Type}.
Implicit Types (log : list (@Data float)) (d : @Data float).
Implicit Types (xf : list (list float)).

Lemma size_map_seq_0 log : size (map_seq 0 log : gmap nat Data) = length log.
Proof.
  induction log as [| d log IH] using rev_ind; [done |].
  rewrite map_seq_snoc, length_app, map_size_insert_None, IH; simpl; [lia |].
  apply lookup_map_seq_None. lia.
Qed.

Lemma save_log log d :
  save (length log) d (map_seq 0 log) = (map_seq 0 (log ++ [d]), Ok tt).
Proof. unfold save. by rewrite map_seq_snoc. Qed.

Lemma save_loop_log (js : list nat) d : ∀ log,
  for_M js (λ _ ind, M_bind (save ind d) (λ _, M_ret (ind + 1)))
    (length log) (map_seq 0 log)
  = (map_seq 0 (log ++ replicate (length js) d), Ok (length log + length js)).
Proof.
  induction js as [| j js IH]; intros log.
  - simpl. unfold M_ret. by rewrite app_nil_r, Nat.add_0_r.
  - cbn [for_M]. unfold M_bind at 1 2. rewrite save_log.
    unfold M_ret at 1.
    replace (length log + 1) with (length (log ++ [d]))
      by (rewrite length_app; simpl; lia).
    rewrite IH, <- app_assoc, length_app. simpl. do 2 f_equal. lia.
Qed.

(** [generate_data] appends [num_instances] copies of one object and
    returns the next free index. *)
Lemma generate_data_log self (edges : edge_tensor) xf label log :
  generate_data self edges xf label (length log) (map_seq 0 log)
  = (map_seq 0
       (log ++ replicate (num_instances self)
                 {| x := xf; edge_index := edges; y := label |}),
     Ok (length log + num_instances self)).
Proof.
  unfold generate_data. rewrite save_loop_log.
  unfold range. by rewrite length_seq, Nat.sub_0_r.
Qed.

Lemma samples_from_app R xf (vs1 vs2 : list (list (Z * Z))) : ∀ k,
  samples_from R xf k (vs1 ++ vs2)
  = samples_from R xf k vs1 ++ samples_from R xf (k + length vs1) vs2.
Proof.
  induction vs1 as [| v vs1 IH]; intros k; simpl.
  - by rewrite Nat.add_0_r.
  - rewrite IH, <- app_assoc. do 3 f_equal. lia.
Qed.

Lemma length_samples_from R xf (vs : list (list (Z * Z))) : ∀ k,
  length (samples_from R xf k vs) = R * length vs.
Proof.
  induction vs as [| v vs IH]; intros k; simpl; [lia |].
  rewrite length_app, length_replicate, IH. lia.
Qed.

(** One pass of the loop over the offsets saves the copies of one variant. *)
Lemma window_step_log self (E : list (Z * Z)) xf w i gc log :
  window_step self (Tensor2D E) xf w i (length log, gc) (map_seq 0 log)
  = (map_seq 0
       (log ++ samples_from (num_instances self) xf gc [remove_window E i w]),
     Ok (length log + num_instances self, gc + 1)).
Proof.
  unfold window_step, lift, M_bind at 1 2 3. simpl.
  unfold M_bind, M_ret. rewrite generate_data_log.
  unfold remove_window.
  by rewrite drop_0, (take_ge E (length E)), app_nil_r by lia.
Qed.

Lemma window_loop_log self (E : list (Z * Z)) xf w (js : list nat) :
  ∀ gc log,
    for_M js (window_step self (Tensor2D E) xf w) (length log, gc)
      (map_seq 0 log)
    = (let log' :=
         log ++ samples_from (num_instances self) xf gc
                  ((λ i, remove_window E i w) <$> js) in
       (map_seq 0 log', Ok (length log', gc + length js))).
Proof.
  induction js as [| j js IH]; intros gc log.
  - simpl. unfold M_ret. by rewrite app_nil_r, Nat.add_0_r.
  - cbn [for_M]. unfold M_bind. rewrite window_step_log.
    set (log1 := log ++ _).
    replace (length log + num_instances self) with (length log1)
      by (unfold log1; rewrite length_app, length_samples_from; simpl; lia).
    rewrite IH. cbv zeta. unfold log1.
    change (j :: js) with ([j] ++ js).
    rewrite fmap_app, samples_from_app, !app_assoc. simpl.
    do 3 f_equal. lia.
Qed.

(** A pass of the outer loop with [num_remove >= 1] on a tensor of two
    dimensions saves the variants of that window size. *)
Lemma remove_step_log self (E : list (Z * Z)) xf w gc log :
  w ≠ 0 →
  remove_step self (Tensor2D E) xf w (length log, gc) (map_seq 0 log)
  = (let log' :=
       log ++ samples_from (num_instances self) xf gc (windows E w) in
     (map_seq 0 log', Ok (length log', gc + length (windows E w)))).
Proof.
  intros Hw. unfold remove_step.
  apply Nat.eqb_neq in Hw as ->.
  unfold M_bind, lift. simpl. rewrite window_loop_log. cbv zeta.
  unfold windows. by rewrite !length_fmap.
Qed.

Lemma remove_loop_log self (E : list (Z * Z)) xf (ws : list nat) :
  Forall (λ w, w ≠ 0) ws →
  ∀ gc log,
    for_M ws (remove_step self (Tensor2D E) xf) (length log, gc)
      (map_seq 0 log)
    = (let vs := mjoin (windows E <$> ws) in
       let log' := log ++ samples_from (num_instances self) xf gc vs in
       (map_seq 0 log', Ok (length log', gc + length vs))).
Proof.
  induction 1 as [| w ws Hw _ IH]; intros gc log.
  - simpl. unfold M_ret. by rewrite app_nil_r, Nat.add_0_r.
  - cbn [for_M]. unfold M_bind. rewrite remove_step_log by done.
    cbv beta iota zeta. rewrite IH. cbv zeta. cbn [fmap list_fmap mjoin list_join].
    rewrite samples_from_app, !app_assoc, !length_app.
    by rewrite (Nat.add_assoc gc).
Qed.

(** The whole generation on a tensor of two dimensions: the directory holds
    the copies of the variants in the order of the enumeration. *)
Lemma generate_datapoints_2D self (E : list (Z * Z)) xf :
  generate_datapoints self (Tensor2D E) xf ∅
  = (let vs := variants E (max_num_edge_remove self) in
     let log := samples_from (num_instances self) xf 0 vs in
     (map_seq 0 log, Ok (length log, length vs))).
Proof.
  unfold generate_datapoints, range. rewrite Nat.sub_0_r, Nat.add_1_r.
  cbn [seq for_M]. unfold M_bind at 1. unfold remove_step at 1.
  cbn [Nat.eqb]. unfold M_bind at 1.
  pose proof (generate_data_log self (Tensor2D E) xf 0 []) as Hfull.
  cbn [length map_seq app] in Hfull. rewrite Hfull. unfold M_ret at 1.
  set (log := replicate _ _).
  replace (0 + num_instances self) with (length log)
    by (unfold log; by rewrite length_replicate).
  rewrite remove_loop_log.
  - cbv zeta. unfold variants, range.
    replace (max_num_edge_remove self + 1 - 1) with (max_num_edge_remove self)
      by lia.
    by cbn [samples_from length Nat.add].
  - apply Forall_forall. intros w Hw%elem_of_seq. lia.
Qed.

(** On the tensor of an empty edge list the first pass saves the copies of
    the full graph, and [edges.size(1)] raises in the next one. *)
Lemma generate_datapoints_1D self xf :
  generate_datapoints self Tensor1D_empty xf ∅
  = (map_seq 0
       (replicate (num_instances self)
          {| x := xf; edge_index := Tensor1D_empty; y := 0 |}),
     if max_num_edge_remove self =? 0 then Ok (num_instances self, 1)
     else Raise IndexError).
Proof.
  unfold generate_datapoints, range. rewrite Nat.sub_0_r, Nat.add_1_r.
  cbn [seq for_M]. unfold M_bind at 1. unfold remove_step at 1.
  cbn [Nat.eqb]. unfold M_bind at 1.
  pose proof (generate_data_log self Tensor1D_empty xf 0 []) as Hfull.
  cbn [length map_seq app] in Hfull. rewrite Hfull. unfold M_ret at 1.
  destruct (max_num_edge_remove self) as [| W]; [done |].
  cbn [seq for_M Nat.eqb]. unfold M_bind at 1. by unfold remove_step.
Qed.

Lemma samples_from_lookup R xf (vs : list (list (Z * Z))) : ∀ k k0 v r,
  vs !! k = Some v → r < R →
  samples_from R xf k0 vs !! (k * R + r)
  = Some {| x := xf; edge_index := Tensor2D v; y := k0 + k |}.
Proof.
  induction vs as [| v0 vs IH]; intros k k0 v r Hk Hr; [done |].
  cbn [samples_from]. destruct k as [| k].
  - injection Hk as ->. rewrite lookup_app_l by (rewrite length_replicate; lia).
    rewrite Nat.add_0_r. apply lookup_replicate_2. lia.
  - rewrite lookup_app_r by (rewrite length_replicate; lia).
    rewrite length_replicate.
    replace (S k * R + r - R) with (k * R + r) by lia.
    rewrite (IH k (S k0) v r) by done. do 2 f_equal. lia.
Qed.

Lemma samples_from_features R xf (vs : list (list (Z * Z))) : ∀ k,
  Forall (λ d, x d = xf) (samples_from R xf k vs).
Proof.
  induction vs as [| v vs IH]; intros k; cbn [samples_from]; [done |].
  apply Forall_app. split; [by apply Forall_replicate | apply IH].
Qed.

(** *** The number of variants *)

Lemma length_windows (E : list (Z * Z)) w :
  length (windows E w) = Z.to_nat (Z.of_nat (length E) - Z.of_nat w + 1).
Proof. unfold windows, rangeZ. by rewrite length_fmap, length_seq. Qed.

Lemma length_join_windows (E : list (Z * Z)) (ws : list nat) :
  Forall (λ w, w ≤ length E + 1) ws →
  Z.of_nat (length (mjoin (windows E <$> ws)))
  = foldr Z.add 0%Z ((λ w, Z.of_nat (length E) - Z.of_nat w + 1)%Z <$> ws).
Proof.
  induction 1 as [| w ws Hw _ IH]; [done |].
  change (mjoin (windows E <$> w :: ws))
    with (windows E w ++ mjoin (windows E <$> ws)).
  cbn [fmap list_fmap foldr].
  rewrite length_app, Nat2Z.inj_add, IH, length_windows. lia.
Qed.

Lemma length_variants (E : list (Z * Z)) W R :
  W ≤ length E + 1 →
  (Z.of_nat R * Z.of_nat (length (variants E W)))%Z
  = size_formula (Z.of_nat (length E)) W (Z.of_nat R).
Proof.
  intros HW. unfold variants, size_formula. cbn [length].
  rewrite Nat2Z.inj_succ, length_join_windows; [lia |].
  apply Forall_forall. intros w Hw%elem_of_range. lia.
Qed.

(** [total] of [processed_file_names] is the size formula, whatever the
    sign of its terms. *)
Lemma processed_total_formula self :
  processed_total self
  = size_formula (Z.of_nat (num_edges self)) (max_num_edge_remove self)
      (Z.of_nat (num_instances self)).
Proof.
  unfold processed_total, size_formula.
  generalize (range 1 (max_num_edge_remove self + 1)) as ws.
  assert (∀ (ws : list nat) (a : Z),
    foldl (λ total i,
             (total + (Z.of_nat (num_edges self) - Z.of_nat i + 1)
                      * Z.of_nat (num_instances self))%Z) a ws
    = (a + Z.of_nat (num_instances self)
           * foldr Z.add 0
               ((λ w, Z.of_nat (num_edges self) - Z.of_nat w + 1) <$> ws))%Z)
    as H.
  { induction ws as [| w ws IH]; intros a; cbn [foldl foldr fmap list_fmap];
      [lia |].
    rewrite IH. lia. }
  intros ws. rewrite H. lia.
Qed.

End Log.

(** *** [__init__] counts the edges [process] reads *)

Lemma parse_edge_not_blank (line : string) (e : Z * Z) :
  parse_edge line = Ok e → strip line ≠ EmptyString.
Proof. unfold parse_edge. intros H Hs. by rewrite Hs in H. Qed.

Lemma read_loop_length (lines : list string) : ∀ acc E,
  for_each lines (λ line edges, e ← parse_edge line; Ok (edges ++ [e])) acc
  = Ok E →
  length E = length acc + length lines
  ∧ filter (λ line, strip line ≠ EmptyString) lines = lines.
Proof.
  induction lines as [| line lines IH]; intros acc E; cbn [for_each].
  - intros [= <-]. split; [simpl; lia | done].
  - destruct (parse_edge line) as [e | err] eqn:He; [| done].
    cbn [mbind result_bind]. intros [Hlen Hfil]%IH.
    rewrite length_app in Hlen. split; [simpl in *; lia |].
    rewrite filter_cons_True by (by eapply parse_edge_not_blank).
    by rewrite Hfil.
Qed.

(** When [process] reads the edge file without an error, [num_edges] is the
    number of edges it has read. *)
Lemma num_edges_init (name text : string) (E : list (Z * Z)) :
  read_edges text = Ok E → num_edges (init name text) = length E.
Proof.
  unfold read_edges. intros [Hlen Hfil]%read_loop_length.
  cbn [init num_edges]. rewrite Hfil. simpl in Hlen. lia.
Qed.

(** *** [process] as a whole *)

Section Process.
Context {float : Type} (to_float : Z → float).

Lemma process_2D self (text : string) json (E : list (Z * Z)) :
  read_edges text = Ok E → fit_long E = true → E ≠ [] →
  process to_float self text json ∅
  = (map_seq 0
       (samples_from (num_instances self) (read_features to_float json) 0
          (variants E (max_num_edge_remove self))),
     Ok tt).
Proof.
  intros Hread Hfit Hne. unfold process, M_bind at 1 2, lift.
  rewrite Hread. unfold tensor_long. rewrite Hfit.
  destruct E as [| e E]; [done |].
  unfold M_bind. by rewrite generate_datapoints_2D.
Qed.

Lemma process_1D self (text : string) json :
  read_edges text = Ok [] →
  process to_float self text json ∅
  = (map_seq 0
       (replicate (num_instances self)
          {| x := read_features to_float json;
             edge_index := Tensor1D_empty; y := 0 |}),
     if max_num_edge_remove self =? 0 then Ok tt else Raise IndexError).
Proof.
  intros Hread. unfold process, M_bind at 1 2, lift.
  rewrite Hread. cbn [tensor_long fit_long forallb].
  unfold M_bind. rewrite generate_datapoints_1D.
  by destruct (max_num_edge_remove self =? 0).
Qed.

(** Whatever the input, the directory is a log of saves, each with the node
    features of the attribute file, and the outcome is decided by the edge
    file alone. *)
Lemma process_cases self (text : string) json :
  ∃ (log : list Data) (r : result unit),
    process to_float self text json ∅ = (map_seq 0 log, r)
    ∧ Forall (λ d, x d = read_features to_float json) log
    ∧ ∀ json', (process to_float self text json' ∅).2 = r.
Proof.
  destruct (read_edges text) as [E | err] eqn:Hread.
  - destruct (fit_long E) eqn:Hfit.
    + destruct E as [| e E].
      * eexists _, _. split; [by apply process_1D |].
        split; [by apply Forall_replicate |].
        intros json'. by rewrite process_1D.
      * eexists _, _. split; [by apply process_2D |].
        split; [apply samples_from_features |].
        intros json'. by rewrite (process_2D _ _ _ (e :: E)).
    + exists [], (Raise RuntimeError).
      unfold process, M_bind, lift, tensor_long. rewrite Hread, Hfit. done.
  - exists [], (Raise err).
    unfold process, M_bind, lift. rewrite Hread. done.
Qed.

End Process.

End DatasetFacts.

(** ** The dependency graph builder *)

Section DependencyClaims.
Import Dependency DependencyFacts.

(** C1, as stated, fails: with the second rule as the specification words it
    (the target of the later gate equals the control of the earlier one) the
    first-match rule gives no edge for the gates [(0,1); (1,2)], while the
    builder returns the edge from gate 0 to gate 1. *)
Lemma scan_rule2_as_specified_fails :
  dependency_graph [(0, 1); (1, 2)]%Z
  ≠ Ok (first_match_graph rule2_spec [(0, 1); (1, 2)]%Z).
Proof. by vm_compute. Qed.

(** C1, amended: for every gate sequence the builder raises nothing and
    returns exactly the adjacency structure of the first-match rule, with
    rule 1 "target of gate j equals target of gate i" (the edge is added and
    the scan from i stops) tested before rule 2 "control of gate j equals
    target of gate i" (the edge is added and the scan goes on): (i, j) is an
    edge exactly when i < j < n, no gate strictly between i and j has the
    target of gate i, and rule 1 or rule 2 holds at j. *)
Theorem dependency_graph_first_match_rule (gates : list gate) :
  ∃ G,
    dependency_graph gates = Ok G
    ∧ G = first_match_graph rule2_code gates
    ∧ length G = length gates
    ∧ ∀ i j,
        (i, j) ∈ edge_list G ↔
        i < j < length gates
        ∧ stopped_before gates i j = false
        ∧ (holds_at gates rule1 i j = true
           ∨ holds_at gates rule2_code i j = true).
Proof.
  exists (first_match_graph rule2_code gates).
  split; [apply dependency_graph_first_match |]. split; [done |].
  split.
  { by rewrite first_match_graph_rows, length_fmap, length_seq. }
  intros i j. rewrite elem_of_edge_list. unfold first_match. split.
  - intros (row & [_ ->]%first_match_graph_lookup_inv & Hj).
    apply elem_of_row_of in Hj as [Hfm Hij]. unfold first_match in Hfm.
    apply andb_prop in Hfm as [Hrun%negb_true_iff Hrule%orb_prop]. done.
  - intros (Hij & Hrun & Hrule). exists (row_of rule2_code gates i).
    split; [apply first_match_graph_lookup; lia |].
    apply elem_of_row_of. split; [| done]. unfold first_match.
    rewrite Hrun. simpl. by apply orb_true_iff.
Qed.

(** C6: for every gate sequence the builder returns a graph whose edges all
    point strictly forward, in which every source has at most one edge to a
    gate with its own target (an edge of the target-equals-target rule), and
    which has no edge when there is at most one gate. *)
Theorem dependency_graph_forward_edges (gates : list gate) :
  ∃ G,
    dependency_graph gates = Ok G
    ∧ (∀ i j, (i, j) ∈ edge_list G → i < j)
    ∧ (∀ i j1 j2,
         (i, j1) ∈ edge_list G → (i, j2) ∈ edge_list G →
         holds_at gates rule1 i j1 = true →
         holds_at gates rule1 i j2 = true →
         j1 = j2)
    ∧ (length gates ≤ 1 → edge_list G = []).
Proof.
  exists (first_match_graph rule2_code gates).
  split; [apply dependency_graph_first_match |].
  assert (∀ i j, (i, j) ∈ edge_list (first_match_graph rule2_code gates) →
            first_match rule2_code gates i j = true ∧ i < j < length gates)
    as Hedge.
  { intros i j (row & [_ ->]%first_match_graph_lookup_inv & Hj)%elem_of_edge_list.
    by apply elem_of_row_of. }
  split; [| split].
  - intros i j [_ ?]%Hedge. lia.
  - intros i j1 j2 [Hfm1 Hij1]%Hedge [Hfm2 Hij2]%Hedge Hr1 Hr2.
    unfold first_match in Hfm1, Hfm2.
    apply andb_prop in Hfm1 as [Hrun1%negb_true_iff _].
    apply andb_prop in Hfm2 as [Hrun2%negb_true_iff _].
    destruct (Nat.lt_trichotomy j1 j2) as [Hlt | [Heq | Hgt]]; [| done |].
    + rewrite stopped_before_false in Hrun2.
      rewrite (Hrun2 j1) in Hr1 by lia. done.
    + rewrite stopped_before_false in Hrun1.
      rewrite (Hrun1 j2) in Hr2 by lia. done.
  - intros Hn. destruct gates as [| g [| g' gates]]; [done | done |].
    simpl in Hn. lia.
Qed.

(** C10: for every gate sequence, the list of destinations of every source is
    strictly increasing, and the edge list has no duplicate: a gate that
    satisfies both rules is still added once. *)
Theorem dependency_graph_rows_increasing (gates : list gate) :
  ∃ G,
    dependency_graph gates = Ok G
    ∧ Forall (StronglySorted lt) G
    ∧ NoDup (edge_list G).
Proof.
  exists (first_match_graph rule2_code gates).
  split; [apply dependency_graph_first_match |]. split.
  - apply Forall_lookup. intros i row [_ ->]%first_match_graph_lookup_inv.
    apply row_of_sorted.
  - apply NoDup_edge_list, Forall_lookup.
    intros i row [_ ->]%first_match_graph_lookup_inv. apply row_of_NoDup.
Qed.

End DependencyClaims.

(** ** The edge file *)

Section EdgeFileClaims.
Import Dependency Dataset DatasetFacts.

(** C8: every ordered edge list, written one edge per line as the source
    index, one space, the destination index and a line feed, is read back by
    [process] as the same edges in the same order; so is the file the builder
    writes for its graph. *)
Theorem edge_list_round_trip :
  (∀ es : list (Z * Z),
     file_lines (serialize_edges es) = edge_line <$> es
     ∧ read_edges (serialize_edges es) = Ok es)
  ∧ (∀ G : adjacency,
       read_edges (write_edges G)
       = Ok ((λ e, (Z.of_nat e.1, Z.of_nat e.2)) <$> edge_list G)).
Proof.
  split.
  - intros es. split; [apply file_lines_serialize | apply read_edges_serialize].
  - intros G. apply read_edges_serialize.
Qed.

End EdgeFileClaims.

(** ** The dataset *)

Section DatasetClaims.
Import Dependency Dataset DatasetFacts.
Context {float : Type} (to_float : Z → float).

(** C2: for a base edge list of four edges and a maximum window size of 2,
    [process] saves exactly eight variants, each [num_instances] times and in
    this order: the full edge list, the four lists with one edge removed at
    the offsets 0 to 3, the three lists with two adjacent edges removed at
    the offsets 0 to 2; the class labels are 0 to 7 in that order.  These are
    the variants of the enumeration, and [processed_file_names] counts
    eight files per instance. *)
Theorem process_four_edges_two_windows (self : CircuitDataset)
    (text : string) (json : list (string * attrs)) (e0 e1 e2 e3 : Z * Z) :
  read_edges text = Ok [e0; e1; e2; e3] →
  fit_long [e0; e1; e2; e3] = true →
  max_num_edge_remove self = 2 →
  let R := num_instances self in
  let sample (v : list (Z * Z)) (label : nat) :=
    {| x := read_features to_float json;
       edge_index := Tensor2D v; y := label |} in
  process to_float self text json ∅
  = (map_seq 0
       (mjoin
          [ replicate R (sample [e0; e1; e2; e3] 0);
            replicate R (sample [e1; e2; e3] 1);
            replicate R (sample [e0; e2; e3] 2);
            replicate R (sample [e0; e1; e3] 3);
            replicate R (sample [e0; e1; e2] 4);
            replicate R (sample [e2; e3] 5);
            replicate R (sample [e0; e3] 6);
            replicate R (sample [e0; e1] 7) ]),
     Ok tt)
  ∧ variants [e0; e1; e2; e3] 2
    = [ [e0; e1; e2; e3]; [e1; e2; e3]; [e0; e2; e3]; [e0; e1; e3];
        [e0; e1; e2]; [e2; e3]; [e0; e3]; [e0; e1] ]
  ∧ (num_edges self = 4 → processed_total self = (Z.of_nat R * 8)%Z).
Proof.
  intros Hread Hfit HW R sample.
  split; [| split].
  - rewrite (process_2D to_float self text json _ Hread Hfit) by done.
    rewrite HW.
    change (variants [e0; e1; e2; e3] 2)
      with [ [e0; e1; e2; e3]; [e1; e2; e3]; [e0; e2; e3]; [e0; e1; e3];
             [e0; e1; e2]; [e2; e3]; [e0; e3]; [e0; e1] ].
    done.
  - done.
  - intros Hm. rewrite processed_total_formula, Hm, HW.
    unfold size_formula. cbn [range seq fmap list_fmap foldr Nat.add Nat.sub].
    fold R. lia.
Qed.

(** C3, on the code: for an edge file without edges, [processed_file_names]
    adds the term of the window size 2 although no window of that size
    exists, (0 - 2 + 1) * 10 = -10, so [total] is 0 and [len] is 0; and
    [process] saves the ten copies of the full graph and then raises
    [IndexError] at [edges.size(1)]. *)
Theorem empty_edge_file_count_and_crash (name : string)
    (json : list (string * attrs)) :
  let self := init name EmptyString in
  num_edges self = 0
  ∧ ((Z.of_nat (num_edges self) - 2 + 1) * Z.of_nat (num_instances self))%Z
    = (-10)%Z
  ∧ processed_total self = 0%Z
  ∧ len self = 0
  ∧ process to_float self EmptyString json ∅
    = (map_seq 0
         (replicate 10
            {| x := read_features to_float json;
               edge_index := Tensor1D_empty; y := 0 |}),
       Raise IndexError).
Proof.
  intros self. do 4 (split; [done |]).
  exact (process_1D to_float self EmptyString json eq_refl).
Qed.

(** C4, amended: for every base edge list of m >= 1 edges, every window
    bound W <= m + 1 and every replication count R, [process] ends without
    an error, the number of saved samples is
    R × (1 + Σ_{w=1}^{W} (m − w + 1)), which is [len] when [num_edges] is m
    (as it is for the object [__init__] builds on the same edge file), and
    the R samples of one variant are the same object: the position
    k * R + r holds the node features, the edges of the variant k and the
    label k for every replica r < R. *)
Theorem process_size_formula (self : CircuitDataset) (text : string)
    (json : list (string * attrs)) (E : list (Z * Z)) :
  read_edges text = Ok E →
  fit_long E = true →
  E ≠ [] →
  max_num_edge_remove self ≤ length E + 1 →
  let s := process to_float self text json ∅ in
  s.2 = Ok tt
  ∧ Z.of_nat (size s.1)
    = size_formula (Z.of_nat (length E)) (max_num_edge_remove self)
        (Z.of_nat (num_instances self))
  ∧ (num_edges self = length E → len self = size s.1)
  ∧ (∀ name, self = init name text → len self = size s.1)
  ∧ ∀ k v r,
      variants E (max_num_edge_remove self) !! k = Some v →
      r < num_instances self →
      get s.1 (k * num_instances self + r)
      = Some {| x := read_features to_float json;
                edge_index := Tensor2D v; y := k |}.
Proof.
  intros Hread Hfit Hne HW s. unfold s.
  rewrite (process_2D to_float self text json E) by done. cbn [fst snd].
  assert (Z.of_nat
            (size (map_seq 0
                     (samples_from (num_instances self)
                        (read_features to_float json) 0
                        (variants E (max_num_edge_remove self)))
                   : gmap nat Data))
          = size_formula (Z.of_nat (length E)) (max_num_edge_remove self)
              (Z.of_nat (num_instances self))) as Hsize.
  { rewrite size_map_seq_0, length_samples_from, Nat2Z.inj_mul.
    by apply length_variants. }
  assert (num_edges self = length E →
          len self
          = size (map_seq 0
                    (samples_from (num_instances self)
                       (read_features to_float json) 0
                       (variants E (max_num_edge_remove self)))
                  : gmap nat Data)) as Hlen.
  { intros Hm. unfold len, processed_file_names, rangeZ.
    rewrite length_fmap, length_seq, processed_total_formula, Hm, <- Hsize.
    apply Nat2Z.id. }
  split; [done |]. split; [done |]. split; [done |]. split.
  - intros name ->. apply Hlen. by apply num_edges_init.
  - intros k v r Hk Hr. unfold get. rewrite lookup_map_seq_0.
    by rewrite (samples_from_lookup _ _ _ k 0 v r).
Qed.

(** C5: with R = 10, after [process] on a base edge list that is not empty
    and with a window bound of at least 1, the saved samples are at the dense
    positions 0, 1, ... in the order of the generation: the position 0 and
    the position 9 hold the full graph with the label 0, the position 10
    holds the graph without the window of size 1 at the offset 0, with the
    label 1; in general the replica r of the variant k is at k * 10 + r, and
    no other position is used. *)
Theorem positions_follow_generation_order (self : CircuitDataset)
    (text : string) (json : list (string * attrs)) (E : list (Z * Z)) :
  read_edges text = Ok E →
  fit_long E = true →
  E ≠ [] →
  num_instances self = 10 →
  1 ≤ max_num_edge_remove self →
  let s := (process to_float self text json ∅).1 in
  let sample (v : list (Z * Z)) (label : nat) :=
    {| x := read_features to_float json;
       edge_index := Tensor2D v; y := label |} in
  get s 0 = Some (sample E 0)
  ∧ get s 9 = Some (sample E 0)
  ∧ get s 10 = Some (sample (remove_window E 0 1) 1)
  ∧ (∀ k v r,
       variants E (max_num_edge_remove self) !! k = Some v → r < 10 →
       get s (k * 10 + r) = Some (sample v k))
  ∧ (∀ p, is_Some (get s p)
          ↔ p < 10 * length (variants E (max_num_edge_remove self))).
Proof.
  intros Hread Hfit Hne HR HW s sample. unfold s.
  rewrite (process_2D to_float self text json E) by done. cbn [fst].
  rewrite HR. unfold get.
  assert (∀ k v r,
    variants E (max_num_edge_remove self) !! k = Some v → r < 10 →
    (map_seq 0
       (samples_from 10 (read_features to_float json) 0
          (variants E (max_num_edge_remove self))) : gmap nat Data)
      !! (k * 10 + r) = Some (sample v k)) as Hpos.
  { intros k v r Hk Hr. rewrite lookup_map_seq_0.
    by rewrite (samples_from_lookup _ _ _ k 0 v r). }
  assert (variants E (max_num_edge_remove self) !! 1
          = Some (remove_window E 0 1)) as Hfirst.
  { unfold variants, range.
    destruct (max_num_edge_remove self) as [| W]; [lia |].
    replace (S W + 1 - 1) with (S W) by lia.
    cbn [seq fmap list_fmap mjoin list_join lookup list_lookup].
    unfold windows, rangeZ. destruct E as [| e E]; [done |].
    replace (Z.to_nat (Z.of_nat (length (e :: E)) - Z.of_nat 1 + 1))
      with (S (length E)) by (simpl; lia).
    done. }
  split; [apply (Hpos 0 E 0); [done | lia] |].
  split; [apply (Hpos 0 E 9); [done | lia] |].
  split; [apply (Hpos 1 _ 0); [done | lia] |].
  split; [exact Hpos |].
  intros p. rewrite lookup_map_seq_0, lookup_lt_is_Some.
  by rewrite length_samples_from.
Qed.

(** C7, amended: the feature mapping accepts every gate-type tag, inside or
    outside the known vocabulary: whether [process] ends with an error does
    not depend on the tags, and every gate gets one feature row, which holds
    its two qubit indices after the feature of the gate. *)
Theorem feature_mapping_accepts_every_tag (self : CircuitDataset)
    (text : string) (json : list (string * attrs)) (f : string → string) :
  (process to_float self text (retag f json) ∅).2
  = (process to_float self text json ∅).2
  ∧ Forall2
      (λ item row,
         ∃ g, row = [g; to_float (qubit_1 item.2); to_float (qubit_2 item.2)])
      json (read_features to_float (retag f json)).
Proof.
  split.
  - destruct (process_cases to_float self text json) as (log & r & _ & _ & Hr).
    by rewrite !Hr.
  - unfold read_features, retag. rewrite <- list_fmap_compose.
    apply Forall2_fmap_r, Forall_Forall2_diag, Forall_forall.
    intros item _. by eexists.
Qed.

(** C9: whatever [process] does, every sample it saves carries the node
    features computed once from the attribute file, so any two saved samples
    have equal node features, whichever window of edges was removed. *)
Theorem node_features_shared (self : CircuitDataset) (text : string)
    (json : list (string * attrs)) :
  let s := (process to_float self text json ∅).1 in
  map_Forall (λ _ d, x d = read_features to_float json) s
  ∧ map_Forall (λ _ d, map_Forall (λ _ d', x d = x d') s) s.
Proof.
  intros s.
  assert (map_Forall (λ _ d, x d = read_features to_float json) s) as Hx.
  { unfold s.
    destruct (process_cases to_float self text json)
      as (log & r & -> & Hlog & _).
    intros p d Hp. cbn [fst] in Hp. rewrite lookup_map_seq_0 in Hp.
    by eapply Forall_lookup in Hlog. }
  split; [done |].
  intros p d Hp q d' Hq. by rewrite (Hx p d Hp), (Hx q d' Hq).
Qed.

End DatasetClaims.

(** ** The claims on the circuit of [Example] *)

Section ConcreteInputs.
Import Dependency Dataset DatasetFacts.

(** The gates [(0,1); (1,2); (0,2)]: gate 1 has the control 1, the target of
    gate 0, and gate 2 has the target 2 of gate 1. *)
Example dependency_graph_three_gates :
  dependency_graph [(0, 1); (1, 2); (0, 2)]%Z = Ok [[1]; [2]; []].
Proof. reflexivity. Qed.

(** The two files of the example are the ones [create_dependency] writes for
    its circuit. *)
Example create_dependency_example :
  create_dependency Example.circuit
  = Ok (Example.edge_file, Example.attr_file).
Proof. vm_compute. reflexivity. Qed.

(** C2 at the example: its four edges are read back, the window bound is 2,
    [process] ends without an error and [total] is 80. *)
Lemma process_four_edges_two_windows_witness :
  read_edges Example.edge_file = Ok Example.edges
  ∧ fit_long Example.edges = true
  ∧ max_num_edge_remove Example.dataset = 2
  ∧ (process Example.exact Example.dataset Example.edge_file Example.attr_file ∅).2
    = Ok tt
  ∧ processed_total Example.dataset = 80%Z.
Proof.
  assert (read_edges Example.edge_file = Ok Example.edges) as Hread
    by (vm_compute; reflexivity).
  assert (fit_long Example.edges = true) as Hfit by reflexivity.
  assert (max_num_edge_remove Example.dataset = 2) as HW by reflexivity.
  destruct (process_four_edges_two_windows Example.exact Example.dataset
              Example.edge_file Example.attr_file
              (0, 1)%Z (0, 3)%Z (1, 2)%Z (2, 3)%Z Hread Hfit HW)
    as (Hprocess & _ & Htotal).
  split; [exact Hread |]. split; [exact Hfit |]. split; [exact HW |].
  split.
  - rewrite Hprocess. reflexivity.
  - apply Htotal. vm_compute. reflexivity.
Defined.

(** C4, as stated, fails for m = 0: the edge file without edges is read as
    the empty edge list, the formula gives 10 × (1 + 0 − 1) = 0, and
    [process] has saved 10 samples when it raises. *)
Lemma size_formula_fails_on_empty_edge_file :
  read_edges EmptyString = Ok []
  ∧ size_formula 0 2 10 = 0%Z
  ∧ Z.of_nat
      (size (process Example.exact (init "circuit" EmptyString) EmptyString
               Example.attr_file ∅).1)
    ≠ size_formula (Z.of_nat (length (@nil (Z * Z))))
        (max_num_edge_remove (init "circuit" EmptyString))
        (Z.of_nat (num_instances (init "circuit" EmptyString))).
Proof.
  split; [reflexivity |]. split; [reflexivity |].
  rewrite process_1D by reflexivity. cbn [fst].
  rewrite size_map_seq_0, length_replicate. by vm_compute.
Qed.

(** C4 at the example: m = 4, W = 2 and R = 10 give 80 saved samples. *)
Lemma process_size_formula_witness :
  read_edges Example.edge_file = Ok Example.edges
  ∧ fit_long Example.edges = true
  ∧ Example.edges ≠ []
  ∧ max_num_edge_remove Example.dataset ≤ length Example.edges + 1
  ∧ (process Example.exact Example.dataset Example.edge_file Example.attr_file ∅).2
    = Ok tt
  ∧ Z.of_nat
      (size (process Example.exact Example.dataset Example.edge_file
               Example.attr_file ∅).1)
    = 80%Z.
Proof.
  assert (read_edges Example.edge_file = Ok Example.edges) as Hread
    by (vm_compute; reflexivity).
  assert (fit_long Example.edges = true) as Hfit by reflexivity.
  assert (Example.edges ≠ []) as Hne by discriminate.
  assert (max_num_edge_remove Example.dataset ≤ length Example.edges + 1) as HW
    by (vm_compute; lia).
  destruct (process_size_formula Example.exact Example.dataset Example.edge_file
              Example.attr_file Example.edges Hread Hfit Hne HW)
    as (Hok & Hsize & _).
  split; [exact Hread |]. split; [exact Hfit |]. split; [exact Hne |].
  split; [exact HW |]. split; [exact Hok |].
  rewrite Hsize. reflexivity.
Defined.

(** C5 at the example: the position 10 holds the graph without its first
    edge, with the label 1. *)
Lemma positions_follow_generation_order_witness :
  read_edges Example.edge_file = Ok Example.edges
  ∧ fit_long Example.edges = true
  ∧ Example.edges ≠ []
  ∧ num_instances Example.dataset = 10
  ∧ 1 ≤ max_num_edge_remove Example.dataset
  ∧ get (process Example.exact Example.dataset Example.edge_file Example.attr_file ∅).1
      10
    = Some {| x := read_features Example.exact Example.attr_file;
              edge_index := Tensor2D [(0, 3); (1, 2); (2, 3)]%Z;
              y := 1 |}.
Proof.
  assert (read_edges Example.edge_file = Ok Example.edges) as Hread
    by (vm_compute; reflexivity).
  assert (fit_long Example.edges = true) as Hfit by reflexivity.
  assert (Example.edges ≠ []) as Hne by discriminate.
  assert (num_instances Example.dataset = 10) as HR by reflexivity.
  assert (1 ≤ max_num_edge_remove Example.dataset) as HW by (vm_compute; lia).
  destruct (positions_follow_generation_order Example.exact Example.dataset
              Example.edge_file Example.attr_file Example.edges
              Hread Hfit Hne HR HW)
    as (_ & _ & H10 & _).
  split; [exact Hread |]. split; [exact Hfit |]. split; [exact Hne |].
  split; [exact HR |]. split; [exact HW |]. exact H10.
Defined.

(** C7, as stated, fails: the attribute file of the example has the tag
    ["cz"], which is not ["cx"], the only tag the mapping names; [process]
    ends without an error, and the gate gets the feature 1 of a ["cx"]
    gate. *)
Lemma unknown_gate_tag_accepted :
  Example.attr_file !! 2 = Some ("2"%string, Attrs "cz" 3 2)
  ∧ "cz"%string ≠ "cx"%string
  ∧ (process Example.exact Example.dataset Example.edge_file Example.attr_file ∅).2
    = Ok tt
  ∧ read_features Example.exact Example.attr_file !! 2
    = Some [Example.exact 1; Example.exact 3; Example.exact 2]
  ∧ gate_feature (Attrs "cz" 3 2) = gate_feature (Attrs "cx" 3 2).
Proof.
  split; [reflexivity |]. split; [discriminate |].
  split; [| split; reflexivity].
  rewrite (process_2D Example.exact Example.dataset Example.edge_file
             Example.attr_file Example.edges); [reflexivity | | | ].
  - vm_compute. reflexivity.
  - reflexivity.
  - discriminate.
Qed.

End ConcreteInputs.

(** ** More on create_dependency.py *)

Module DependencyMore.
Import Dependency PyFacts DependencyFacts.

(** *** Gathering the gates *)

Lemma gather_acc (data : list instruction) : ∀ gates vertex_attr,
  gather data gates vertex_attr
  = (gates ++ (snd <$> omap two_qubit data),
     vertex_attr ++ imap (attr_at (length gates)) (omap two_qubit data)).
Proof.
  induction data as [| ins data IH]; intros gates vertex_attr.
  { simpl. by rewrite !app_nil_r. }
  cbn [gather omap list_omap].
  destruct (qubits ins) as [| q0 [| q1 [| q2 qs]]] eqn:Hq;
    (assert (two_qubit ins
             = match qubits ins with
               | [q0; q1] => Some (name ins, (q0, q1))
               | _ => None
               end) as Htwo by done);
    rewrite Hq in Htwo; rewrite Htwo; try apply IH.
  rewrite IH. cbn [fmap list_fmap imap snd].
  rewrite <- !app_assoc. cbn [app]. do 3 f_equal.
  - unfold attr_at. cbn [fst snd]. rewrite length_app. cbn [length].
    f_equal. lia.
  - apply imap_ext. intros k ng _. unfold attr_at. cbn.
    rewrite length_app. cbn [length]. f_equal. lia.
Qed.

(** *** Extending and relabelling the gate sequence *)

Lemma bool_eq_iff (b1 b2 : bool) : (b1 = true ↔ b2 = true) → b1 = b2.
Proof. destruct b1, b2; intuition congruence. Qed.

Lemma filter_ext_in {A} (P Q : A → Prop) `{!∀ a, Decision (P a)}
    `{!∀ a, Decision (Q a)} (l : list A) :
  (∀ a, a ∈ l → P a ↔ Q a) → filter P l = filter Q l.
Proof.
  induction l as [| a l IH]; intros Hext; [done |].
  rewrite !filter_cons.
  rewrite IH by (intros b Hb; apply Hext; by right).
  destruct (decide (P a)) as [HP | HP], (decide (Q a)) as [HQ | HQ];
    try done; exfalso; apply (Hext a) in HP || apply (Hext a) in HQ;
    done || by left.
Qed.

Lemma holds_at_app_l (gates more : list gate) r i j :
  i < length gates → j < length gates →
  holds_at (gates ++ more) r i j = holds_at gates r i j.
Proof. intros Hi Hj. unfold holds_at. by rewrite !lookup_app_l. Qed.

Lemma stopped_before_app_l (gates more : list gate) i j :
  i < length gates → j ≤ length gates →
  stopped_before (gates ++ more) i j = stopped_before gates i j.
Proof.
  intros Hi Hj. apply bool_eq_iff. rewrite !stopped_before_true.
  split; intros (k & Hk & Hr); exists k; (split; [done |]).
  - by rewrite holds_at_app_l in Hr by lia.
  - by rewrite holds_at_app_l by lia.
Qed.

Lemma first_match_app_l rule2 (gates more : list gate) i j :
  i < length gates → j < length gates →
  first_match rule2 (gates ++ more) i j = first_match rule2 gates i j.
Proof.
  intros Hi Hj. unfold first_match.
  by rewrite stopped_before_app_l, !holds_at_app_l by lia.
Qed.

Lemma row_of_app_l rule2 (gates more : list gate) i :
  i < length gates →
  row_of rule2 (gates ++ more) i
  = row_of rule2 gates i
    ++ filter (λ j, first_match rule2 (gates ++ more) i j = true)
         (seq (length gates) (length more)).
Proof.
  intros Hi. unfold row_of, range. rewrite length_app.
  replace (length gates + length more - (i + 1))
    with ((length gates - (i + 1)) + length more) by lia.
  rewrite seq_app, filter_app.
  replace (i + 1 + (length gates - (i + 1))) with (length gates) by lia.
  f_equal. apply filter_ext_in. intros j Hj%elem_of_seq.
  by rewrite first_match_app_l by lia.
Qed.

Section Relabel.
Context (f : Z → Z) `{!Inj (=) (=) f}.

Lemma eqb_inj (a b : Z) : (f a =? f b)%Z = (a =? b)%Z.
Proof.
  destruct (Z.eqb_spec a b) as [-> | Hne]; [apply Z.eqb_refl |].
  apply Z.eqb_neq. intros Heq. by apply Hne, (inj f).
Qed.

Lemma holds_at_relabel (gates : list gate) r i j :
  (∀ gi gj, r (f gi.1, f gi.2) (f gj.1, f gj.2) = r gi gj) →
  holds_at (relabel f gates) r i j = holds_at gates r i j.
Proof.
  intros Hr. unfold holds_at, relabel. rewrite !list_lookup_fmap.
  unfold gate in *.
  destruct (gates !! i) as [gi |], (gates !! j) as [gj |]; simpl; done.
Qed.

Lemma rule1_relabel gi gj :
  rule1 (f gi.1, f gi.2) (f gj.1, f gj.2) = rule1 gi gj.
Proof. unfold rule1, target. apply eqb_inj. Qed.

Lemma rule2_code_relabel gi gj :
  rule2_code (f gi.1, f gi.2) (f gj.1, f gj.2) = rule2_code gi gj.
Proof. unfold rule2_code, target, control. apply eqb_inj. Qed.

Lemma first_match_relabel (gates : list gate) i j :
  first_match rule2_code (relabel f gates) i j
  = first_match rule2_code gates i j.
Proof.
  unfold first_match.
  rewrite !holds_at_relabel by (apply rule1_relabel || apply rule2_code_relabel).
  f_equal. f_equal. apply bool_eq_iff. rewrite !stopped_before_true.
  split; intros (k & Hk & Hr); exists k; (split; [done |]).
  - by rewrite holds_at_relabel in Hr by apply rule1_relabel.
  - by rewrite holds_at_relabel by apply rule1_relabel.
Qed.

End Relabel.

(** *** The pieces of a path *)

Lemma split_on_free sep (t s : string) : ∀ cur,
  all_chars (is_not sep) t = true →
  split_on sep (t +:+ s) cur = split_on sep s (cur +:+ t).
Proof.
  induction t as [| c t IH]; intros cur; simpl.
  - by rewrite append_nil_r.
  - intros [Hc Ht]%andb_prop. apply negb_true_iff in Hc. rewrite Hc.
    by rewrite IH, append_snoc.
Qed.

Lemma split_on_nonempty sep (s : string) : ∀ cur, split_on sep s cur ≠ [].
Proof.
  induction s as [| c s IH]; intros cur; simpl; [done |].
  destruct (c =? sep)%char; [done | apply IH].
Qed.

Lemma last_split_on_sep sep (d rest : string) : ∀ cur,
  last (split_on sep (d +:+ String sep rest) cur)
  = last (split_on sep rest EmptyString).
Proof.
  assert (∀ cur, last (split_on sep (String sep rest) cur)
                 = last (split_on sep rest EmptyString)) as Hsep.
  { intros cur. simpl. rewrite Ascii.eqb_refl.
    pose proof (split_on_nonempty sep rest EmptyString) as Hne.
    by destruct (split_on sep rest EmptyString). }
  induction d as [| c d IH]; intros cur; [apply Hsep |].
  simpl. destruct (c =? sep)%char; [| apply IH].
  pose proof (split_on_nonempty sep (d +:+ String sep rest) EmptyString) as Hne.
  rewrite <- (IH EmptyString).
  by destruct (split_on sep (d +:+ String sep rest) EmptyString).
Qed.

Lemma file_anker_name (name ext : string) :
  all_chars (is_not "/") name = true →
  all_chars (is_not ".") name = true →
  all_chars (is_not "/") ext = true →
  last (split_on "/" (name +:+ String "." ext) EmptyString)
  = Some (name +:+ String "." ext)
  ∧ getitem (split_on "." (name +:+ String "." ext) EmptyString) 0 = Ok name.
Proof.
  intros Hn1 Hn2 He. split.
  - rewrite <- (append_nil_r (name +:+ String "." ext)) at 1.
    rewrite split_on_free; [done |].
    rewrite all_chars_app, Hn1. simpl. by rewrite He.
  - rewrite split_on_free by done. simpl. done.
Qed.

End DependencyMore.

Section DependencyExtras.
Import Dependency DependencyFacts DependencyMore Dataset.

(** X1: the gates gathered are the qubit pairs of the instructions on
    exactly two qubits, in the order of the circuit, and [vertex_attr] has
    one entry per gate, in the same order, keyed by the index of the gate and
    holding its name and its two qubits. *)
Theorem gather_two_qubit_gates (data : list instruction) :
  let r := gather data [] [] in
  r.1 = snd <$> omap two_qubit data
  ∧ r.2 = imap (attr_at 0) (omap two_qubit data)
  ∧ length r.2 = length r.1
  ∧ ∀ k key a,
      r.2 !! k = Some (key, a) →
      key = k ∧ r.1 !! k = Some (qubit_1 a, qubit_2 a).
Proof.
  intros r. unfold r. rewrite gather_acc. cbn [fst snd app length].
  split; [done |]. split; [done |]. split.
  - by rewrite length_imap, length_fmap.
  - intros k key a Hk. rewrite list_lookup_imap in Hk.
    rewrite list_lookup_fmap.
    destruct (omap two_qubit data !! k) as [[nm [q0 q1]] |]; [| done].
    by injection Hk as <- <-.
Qed.

(** X2: gates appended to a gate sequence leave the edges between the
    earlier gates as they are: every row of the graph of the longer sequence
    starts with the row of the shorter one, and what follows it are new
    gates only. *)
Theorem dependency_graph_extension (gates more : list gate) :
  ∃ G G',
    dependency_graph gates = Ok G
    ∧ dependency_graph (gates ++ more) = Ok G'
    ∧ ∀ i row,
        G !! i = Some row →
        ∃ later,
          G' !! i = Some (row ++ later)
          ∧ Forall (λ j, length gates ≤ j) later.
Proof.
  exists (first_match_graph rule2_code gates),
         (first_match_graph rule2_code (gates ++ more)).
  split; [apply dependency_graph_first_match |].
  split; [apply dependency_graph_first_match |].
  intros i row [Hi ->]%first_match_graph_lookup_inv.
  eexists. split.
  - rewrite first_match_graph_lookup by (rewrite length_app; lia).
    by rewrite row_of_app_l.
  - apply Forall_forall.
    intros j [_ Hj%elem_of_seq]%list_elem_of_filter. lia.
Qed.

(** X3: the graph depends on the qubit indices only through their
    equalities: renaming the qubits by an injective function gives the same
    graph. *)
Theorem dependency_graph_relabel (f : Z → Z) (gates : list gate) :
  Inj (=) (=) f →
  dependency_graph (relabel f gates) = dependency_graph gates.
Proof.
  intros Hf. rewrite !dependency_graph_first_match. f_equal.
  assert (length (relabel f gates) = length gates) as Hlen
    by apply length_fmap.
  rewrite !first_match_graph_rows, Hlen.
  apply list_fmap_ext. intros _ i _. unfold row_of. rewrite Hlen.
  apply filter_ext_in. intros j _. by rewrite first_match_relabel.
Qed.

(** X3 for the shift of every qubit index by one. *)
Lemma dependency_graph_relabel_witness :
  Inj (=) (=) Z.succ
  ∧ dependency_graph (relabel Z.succ [(0, 1); (1, 2); (0, 2)]%Z)
    = dependency_graph [(0, 1); (1, 2); (0, 2)]%Z.
Proof.
  assert (Inj (=) (=) Z.succ) as Hinj by (intros a b; lia).
  split; [exact Hinj |].
  exact (dependency_graph_relabel Z.succ [(0, 1); (1, 2); (0, 2)]%Z Hinj).
Defined.

(** X4: for an input path whose last component is [name.ext], with no dot
    in [name], the default paths of the two output files are
    [name_dependency.edges] and [name_attr.json], the two raw files of the
    dataset of that [filename]; a path that is given and not empty is
    used as it is. *)
Theorem output_paths_default (dir name ext : string) (self : CircuitDataset) :
  all_chars (is_not "/") name = true →
  all_chars (is_not ".") name = true →
  all_chars (is_not "/") ext = true →
  filename self = name →
  ∃ edge_path attr_path,
    output_paths (dir +:+ String "/" (name +:+ String "." ext)) None None
    = Ok (edge_path, attr_path)
    ∧ output_paths (name +:+ String "." ext) (Some EmptyString) None
      = Ok (edge_path, attr_path)
    ∧ raw_files self = [attr_path; edge_path]
    ∧ ∀ c p c' p',
        output_paths (name +:+ String "." ext)
          (Some (String c p)) (Some (String c' p'))
        = Ok (String c p, String c' p').
Proof.
  intros Hn1 Hn2 He <-.
  destruct (file_anker_name (filename self) ext Hn1 Hn2 He) as [Hlast Hfirst].
  assert (file_anker (filename self +:+ String "." ext) = Ok (filename self))
    as Hanker by (unfold file_anker; by rewrite Hlast, Hfirst).
  assert (file_anker
            (dir +:+ String "/" (filename self +:+ String "." ext))
          = Ok (filename self)) as Hanker'.
  { unfold file_anker. by rewrite last_split_on_sep, Hlast, Hfirst. }
  eexists _, _. unfold output_paths. rewrite Hanker, Hanker'.
  cbn [mbind result_bind path_or]. done.
Qed.

(** X4 for the path [data/example.qasm] of the docstring. *)
Lemma output_paths_default_witness :
  all_chars (is_not "/") "example" = true
  ∧ all_chars (is_not ".") "example" = true
  ∧ all_chars (is_not "/") "qasm" = true
  ∧ output_paths "data/example.qasm" None None
    = Ok ("example_dependency.edges"%string, "example_attr.json"%string).
Proof.
  split; [reflexivity |]. split; [reflexivity |]. split; [reflexivity |].
  destruct (output_paths_default "data" "example" "qasm"
              (init "example" EmptyString) eq_refl eq_refl eq_refl eq_refl)
    as (edge_path & attr_path & Hout & _ & Hraw & _).
  injection Hraw as <- <-. exact Hout.
Defined.

End DependencyExtras.

(** ** More on create_dataset.py *)

Module DatasetMore.
Import Dependency Dataset PyFacts DependencyFacts DatasetFacts.

(** *** Reading the edge file *)

Lemma int_error (s : string) e : int s = Raise e → e = ValueError.
Proof.
  unfold int. cbv zeta. intros H.
  destruct (match strip s with EmptyString => _ | String _ _ => _ end);
    congruence.
Qed.

Lemma parse_edge_error (line : string) e :
  parse_edge line = Raise e → e = ValueError.
Proof.
  unfold parse_edge.
  destruct (split (strip line)) as [| a [| b [| c toks]]]; try by intros [=].
  destruct (int a) as [src |] eqn:Ha; simpl.
  - destruct (int b) as [dst |] eqn:Hb; simpl; [done |].
    intros [= <-]. by eapply int_error.
  - intros [= <-]. by eapply int_error.
Qed.

Lemma read_loop_cases (lines : list string) : ∀ acc,
  for_each lines (λ line edges, e ← parse_edge line; Ok (edges ++ [e])) acc
  = Raise ValueError
  ∨ ∃ es,
      for_each lines (λ line edges, e ← parse_edge line; Ok (edges ++ [e]))
        acc
      = Ok (acc ++ es)
      ∧ Forall2 (λ line e, parse_edge line = Ok e) lines es.
Proof.
  induction lines as [| line lines IH]; intros acc; cbn [for_each].
  - right. exists []. by rewrite app_nil_r.
  - destruct (parse_edge line) as [e | err] eqn:He; cbn [mbind result_bind].
    + destruct (IH (acc ++ [e])) as [Hfail | (es & Hok & Hall)]; [by left |].
      right. exists (e :: es). rewrite Hok, <- app_assoc. by split; [| constructor].
    + left. by rewrite (parse_edge_error _ _ He).
Qed.

(** *** The names of the processed files *)

Lemma token_suffix_inj (c : ascii) (t1 : string) : ∀ (t2 r1 r2 : string),
  is_token_char c = false →
  all_chars is_token_char t1 = true → all_chars is_token_char t2 = true →
  t1 +:+ String c r1 = t2 +:+ String c r2 → t1 = t2.
Proof.
  induction t1 as [| d t1 IH]; intros [| d' t2] r1 r2 Hc H1 H2 Heq;
    simpl in *; try done.
  - injection Heq as -> _. apply andb_prop in H2 as [H2 _]. congruence.
  - injection Heq as -> _. apply andb_prop in H1 as [H1 _]. congruence.
  - injection Heq as -> Heq.
    apply andb_prop in H1 as [_ H1]. apply andb_prop in H2 as [_ H2].
    f_equal. by eapply IH.
Qed.

Lemma str_int_inj (a b : Z) : str_int a = str_int b → a = b.
Proof.
  intros Heq. pose proof (int_str_int a) as Ha.
  rewrite Heq, int_str_int in Ha. by injection Ha.
Qed.

Lemma processed_name_inj (name : string) (a b : nat) :
  name +:+ "_" +:+ str_int (Z.of_nat a) +:+ ".pt"
  = name +:+ "_" +:+ str_int (Z.of_nat b) +:+ ".pt" →
  a = b.
Proof.
  intros Heq. apply (inj (String.append name)) in Heq.
  injection Heq as Heq.
  apply (token_suffix_inj "." _ _ "pt" "pt") in Heq;
    [| done | apply str_int_token | apply str_int_token].
  apply str_int_inj in Heq. lia.
Qed.

(** *** Files that are already there *)

Section Frame.
Context {float : Type}.
Implicit Types (s : gmap nat (@Data float)) (d : @Data float).

Lemma save_loop_frame (js : list nat) d : ∀ ind s,
  for_M js (λ _ ind, M_bind (save ind d) (λ _, M_ret (ind + 1))) ind s
  = (map_seq ind (replicate (length js) d) ∪ s, Ok (ind + length js)).
Proof.
  induction js as [| j js IH]; intros ind s.
  - simpl. unfold M_ret. by rewrite (left_id_L ∅ (∪)), Nat.add_0_r.
  - cbn [for_M]. unfold M_bind at 1 2, save at 1, M_ret at 1.
    rewrite IH. cbn [length replicate map_seq]. f_equal; [| f_equal; lia].
    rewrite Nat.add_1_r, <- insert_union_r, insert_union_l; [done |].
    apply lookup_map_seq_None. lia.
Qed.

Lemma generate_data_union self (edges : edge_tensor) xf label ind s :
  generate_data self edges xf label ind s
  = (map_seq ind
       (replicate (num_instances self)
          {| x := xf; edge_index := edges; y := label |}) ∪ s,
     Ok (ind + num_instances self)).
Proof.
  unfold generate_data. rewrite save_loop_frame.
  unfold range. by rewrite length_seq, Nat.sub_0_r.
Qed.

Lemma framed_ret {A} (a : A) : framed (M_ret (float:=float) a).
Proof. intros s. unfold M_ret. simpl. by rewrite (left_id_L ∅ (∪)). Qed.

Lemma framed_lift {A} (r : result A) : framed (lift (float:=float) r).
Proof. intros s. unfold lift. simpl. by rewrite (left_id_L ∅ (∪)). Qed.

Lemma framed_bind {A B} (m : M A) (f : A → M (float:=float) B) :
  framed m → (∀ a, framed (f a)) → framed (M_bind m f).
Proof.
  intros Hm Hf s. unfold M_bind. rewrite (Hm s).
  destruct (m ∅) as [s1 [a | e]]; cbn [fst snd]; [| done].
  rewrite (Hf a (s1 ∪ s)), (Hf a s1).
  destruct (f a ∅) as [s2 r]. cbn [fst snd].
  by rewrite (assoc_L (∪)).
Qed.

Lemma framed_for_M {A S} (vs : list A) (body : A → S → M (float:=float) S) :
  (∀ v st, framed (body v st)) → ∀ st, framed (for_M vs body st).
Proof.
  intros Hbody. induction vs as [| v vs IH]; intros st; cbn [for_M].
  - apply framed_ret.
  - by apply framed_bind.
Qed.

Lemma framed_generate_data self (edges : edge_tensor) xf label ind :
  framed (generate_data (float:=float) self edges xf label ind).
Proof.
  intros s. rewrite !generate_data_union. cbn [fst snd].
  by rewrite (right_id_L ∅ (∪)).
Qed.

Lemma framed_generate_datapoints self (edges : edge_tensor) xf :
  framed (generate_datapoints (float:=float) self edges xf).
Proof.
  apply framed_for_M. intros w [ind gc]. unfold remove_step.
  destruct (w =? 0).
  - apply framed_bind; [apply framed_generate_data |].
    intros ?. apply framed_ret.
  - apply framed_bind; [apply framed_lift |]. intros m.
    apply framed_for_M. intros i [ind' gc']. unfold window_step.
    repeat (apply framed_bind; [apply framed_lift |]; intros ?).
    apply framed_bind; [apply framed_generate_data |].
    intros ?. apply framed_ret.
Qed.

End Frame.

(** *** What a position holds *)

Section Positions.
Context {float : Type}.
Implicit Types (xf : list (list float)).

Lemma samples_from_lookup_inv R xf (vs : list (list (Z * Z))) :
  ∀ k0 p (d : @Data float),
    samples_from R xf k0 vs !! p = Some d →
    ∃ k v,
      vs !! k = Some v
      ∧ d = {| x := xf; edge_index := Tensor2D v; y := k0 + k |}
      ∧ p / R = k.
Proof.
  destruct (decide (R = 0)) as [-> | HR].
  { intros k0 p d Hp%lookup_lt_Some.
    rewrite length_samples_from in Hp. lia. }
  induction vs as [| v0 vs IH]; intros k0 p d Hp; [done |].
  cbn [samples_from] in Hp. apply lookup_app_Some in Hp as [Hp | [Hge Hp]].
  - apply lookup_replicate in Hp as [-> Hlt]. exists 0, v0.
    split; [done |]. split; [by rewrite Nat.add_0_r |].
    by apply Nat.div_small.
  - rewrite length_replicate in Hge, Hp.
    apply IH in Hp as (k & v & Hk & -> & Hdiv). exists (S k), v.
    split; [done |]. split; [f_equal; lia |].
    replace p with ((p - R) + 1 * R) by lia.
    rewrite Nat.div_add by done. lia.
Qed.

Lemma remove_window_sublist (E : list (Z * Z)) i w :
  remove_window E i w `sublist_of` E.
Proof.
  unfold remove_window. rewrite <- (take_drop i E) at 3.
  apply sublist_app; [done |].
  rewrite <- drop_drop. apply sublist_drop.
Qed.

Lemma variants_sublist (E : list (Z * Z)) W v :
  v ∈ variants E W → v `sublist_of` E.
Proof.
  unfold variants. intros [-> | Hv]%elem_of_cons; [done |].
  apply list_elem_of_join in Hv as (vs & Hv & Hvs).
  apply list_elem_of_fmap in Hvs as (w & -> & _).
  unfold windows in Hv. apply list_elem_of_fmap in Hv as (i & -> & _).
  apply remove_window_sublist.
Qed.

End Positions.

(** [total] for the constants of [__init__]. *)
Lemma processed_total_init (name text : string) :
  processed_total (init name text)
  = (20 * Z.of_nat (num_edges (init name text)))%Z.
Proof.
  rewrite processed_total_formula. unfold size_formula.
  cbn [init max_num_edge_remove num_instances range seq fmap list_fmap foldr
       Nat.add Nat.sub].
  lia.
Qed.

End DatasetMore.

Section DatasetExtras.
Import Dependency Dataset PyFacts DependencyFacts DatasetFacts.
Import DependencyMore DatasetMore.
Context {float : Type} (to_float : Z → float).

(** X5: reading the edge file either raises [ValueError] or returns one edge
    per line of the file, each the two integers of its line, in the order of
    the lines; a blank line makes it raise, although [__init__] leaves blank
    lines out of its count. *)
Theorem read_edges_cases (text : string) :
  (read_edges text = Raise ValueError
   ∨ ∃ E,
       read_edges text = Ok E
       ∧ Forall2 (λ line e, parse_edge line = Ok e) (file_lines text) E)
  ∧ (∀ line,
       line ∈ file_lines text → strip line = EmptyString →
       read_edges text = Raise ValueError).
Proof.
  unfold read_edges.
  destruct (read_loop_cases (file_lines text) []) as [Hfail | (E & Hok & Hall)].
  - split; [by left | done].
  - split; [right; by exists E |].
    intros line [i Hi]%list_elem_of_lookup Hblank.
    destruct (Forall2_lookup_l _ _ _ _ _ Hall Hi) as (e & _ & He).
    by apply parse_edge_not_blank in He.
Qed.

(** X6: when the edge file is one [process] reads without an error,
    [__init__] has counted the edges read, and [len] is 20 times their
    number. *)
Theorem init_counts_edges_read (name text : string) (E : list (Z * Z)) :
  read_edges text = Ok E →
  num_edges (init name text) = length E
  ∧ len (init name text) = 20 * length E.
Proof.
  intros Hread. pose proof (num_edges_init name text E Hread) as Hm.
  split; [done |].
  unfold len, processed_file_names, rangeZ.
  rewrite length_fmap, length_seq, processed_total_init, Hm. lia.
Qed.

(** X7: the names [processed_file_names] returns are pairwise distinct;
    there are [total] of them, none when [total] is negative, and the name at
    the position [ind] is [f'{filename}_{ind}.pt']. *)
Theorem processed_file_names_distinct (self : CircuitDataset) :
  NoDup (processed_file_names self)
  ∧ len self = Z.to_nat (processed_total self)
  ∧ ∀ ind,
      ind < len self →
      processed_file_names self !! ind
      = Some (filename self +:+ "_" +:+ str_int (Z.of_nat ind) +:+ ".pt").
Proof.
  assert (len self = Z.to_nat (processed_total self)) as Hlen.
  { unfold len, processed_file_names, rangeZ.
    by rewrite length_fmap, length_seq. }
  split; [| split; [done |]].
  - unfold processed_file_names.
    apply NoDup_fmap_2_strong; [| apply NoDup_seq].
    intros a b _ _. apply processed_name_inj.
  - intros ind Hind. unfold processed_file_names, rangeZ.
    rewrite list_lookup_fmap, lookup_seq_lt by lia. done.
Qed.

(** X8: on any directory and from any index [ind], [generate_data] returns
    [ind + num_instances], puts the same object at the positions from [ind]
    to [ind + num_instances - 1], replacing what was there, and leaves every
    other file as it was. *)
Theorem generate_data_frame (self : CircuitDataset) (edges : edge_tensor)
    (node_features : list (list float)) (label ind : nat)
    (s : gmap nat Data) :
  let r := generate_data self edges node_features label ind s in
  r.2 = Ok (ind + num_instances self)
  ∧ ∀ p,
      r.1 !! p
      = if decide (ind ≤ p < ind + num_instances self)
        then Some {| x := node_features; edge_index := edges; y := label |}
        else s !! p.
Proof.
  intros r. unfold r. rewrite generate_data_union. cbn [fst snd].
  split; [done |]. intros p. destruct (decide _) as [Hp | Hp].
  - apply lookup_union_Some_l, lookup_map_seq_Some. split; [lia |].
    apply lookup_replicate_2. lia.
  - apply lookup_union_r, lookup_map_seq_None.
    rewrite length_replicate. lia.
Qed.

(** X9: [process] only adds or replaces files: on any directory it saves
    what it saves on the empty one, over the files that are there, and ends
    the same way. *)
Theorem process_frame (self : CircuitDataset) (text : string)
    (json : list (string * attrs)) (s : gmap nat Data) :
  process to_float self text json s
  = ((process to_float self text json ∅).1 ∪ s,
     (process to_float self text json ∅).2).
Proof.
  revert s. change (framed (process to_float self text json)).
  unfold process.
  apply framed_bind; [apply framed_lift |]. intros E.
  apply framed_bind; [apply framed_lift |]. intros t.
  apply framed_bind; [apply framed_generate_datapoints |].
  intros ?. apply framed_ret.
Qed.

(** X10: for the object [__init__] builds on an edge file with at least one
    edge, after [process] on an empty directory [get] finds a file exactly at
    the positions below [len]. *)
Theorem get_defined_below_len (name text : string)
    (json : list (string * attrs)) (E : list (Z * Z)) :
  read_edges text = Ok E →
  fit_long E = true →
  E ≠ [] →
  let self := init name text in
  let s := (process to_float self text json ∅).1 in
  ∀ p, is_Some (get s p) ↔ p < len self.
Proof.
  intros Hread Hfit Hne self s p. unfold s, self, get.
  rewrite (process_2D to_float _ text json E) by done. cbn [fst].
  rewrite lookup_map_seq_0, lookup_lt_is_Some, length_samples_from.
  destruct (init_counts_edges_read name text E Hread) as [_ ->].
  pose proof (length_variants E 2 10) as Hv.
  assert (length E ≠ 0) as Hm by (by destruct E).
  unfold size_formula in Hv.
  cbn [range seq fmap list_fmap foldr Nat.add Nat.sub] in Hv.
  cbn [init max_num_edge_remove num_instances]. lia.
Qed.

(** X11: after [process] on a base edge list that is not empty, the sample
    at a position [p] has the label [p // num_instances], the node features
    of the attribute file, and edges that are a sublist of the base edges:
    no edge is added and none changes place. *)
Theorem saved_sample_label_and_edges (self : CircuitDataset) (text : string)
    (json : list (string * attrs)) (E : list (Z * Z)) :
  read_edges text = Ok E →
  fit_long E = true →
  E ≠ [] →
  let s := (process to_float self text json ∅).1 in
  ∀ p d,
    get s p = Some d →
    y d = p / num_instances self
    ∧ x d = read_features to_float json
    ∧ ∃ v, edge_index d = Tensor2D v ∧ v `sublist_of` E.
Proof.
  intros Hread Hfit Hne s p d. unfold s, get.
  rewrite (process_2D to_float self text json E) by done. cbn [fst].
  rewrite lookup_map_seq_0.
  intros (k & v & Hk & -> & Hdiv)%samples_from_lookup_inv. cbn.
  split; [done |]. split; [done |]. exists v. split; [done |].
  eapply variants_sublist, list_elem_of_lookup_2, Hk.
Qed.

(** X12: [process] on an empty directory ends in one of four ways: a line of
    the edge file that is not two integers raises [ValueError] and an integer
    outside the 64-bit range raises [RuntimeError], both before any file is
    saved; an edge file without edges leaves the [num_instances] copies of
    the full graph and raises [IndexError] unless the window bound is 0; in
    every other case all variants are saved and no error is raised. *)
Theorem process_outcome (self : CircuitDataset) (text : string)
    (json : list (string * attrs)) :
  process to_float self text json ∅
  = match read_edges text with
    | Raise e => (∅, Raise e)
    | Ok E =>
        if fit_long E then
          match E with
          | [] =>
              (map_seq 0
                 (replicate (num_instances self)
                    {| x := read_features to_float json;
                       edge_index := Tensor1D_empty; y := 0 |}),
               if max_num_edge_remove self =? 0 then Ok tt
               else Raise IndexError)
          | _ =>
              (map_seq 0
                 (samples_from (num_instances self)
                    (read_features to_float json) 0
                    (variants E (max_num_edge_remove self))),
               Ok tt)
          end
        else (∅, Raise RuntimeError)
    end.
Proof.
  destruct (read_edges text) as [E | e] eqn:Hread.
  - destruct (fit_long E) eqn:Hfit.
    + destruct E as [| e E]; [by apply process_1D | by apply process_2D].
    + unfold process, M_bind, lift, tensor_long. by rewrite Hread, Hfit.
  - unfold process, M_bind, lift. by rewrite Hread.
Qed.

(** X13: the two programs in a row.  For a circuit with at most 2^63
    two-qubit gates, [create_dependency] raises nothing; the edge file it
    writes is read back as the edges of the graph, the attribute file has one
    entry per gate, [__init__] counts the edges and [len] is 20 times their
    number; and when the graph has an edge, [process] ends without an error
    with [len] files, each with one feature row per gate. *)
Theorem circuit_to_dataset (data : list instruction) (name : string) :
  let gates := (gather data [] []).1 in
  (Z.of_nat (length gates) ≤ 2 ^ 63)%Z →
  ∃ G edge_file attr_file,
    dependency_graph gates = Ok G
    ∧ create_dependency data = Ok (edge_file, attr_file)
    ∧ read_edges edge_file
      = Ok ((λ e, (Z.of_nat e.1, Z.of_nat e.2)) <$> edge_list G)
    ∧ length attr_file = length gates
    ∧ num_edges (init name edge_file) = length (edge_list G)
    ∧ len (init name edge_file) = 20 * length (edge_list G)
    ∧ (edge_list G ≠ [] →
       let s :=
         process to_float (init name edge_file) edge_file attr_file ∅ in
       s.2 = Ok tt
       ∧ size s.1 = len (init name edge_file)
       ∧ map_Forall (λ _ d, length (x d) = length gates) s.1).
Proof.
  intros gates Hbound.
  set (G := first_match_graph rule2_code gates).
  set (E := (λ e : nat * nat, (Z.of_nat e.1, Z.of_nat e.2)) <$> edge_list G).
  assert (dependency_graph gates = Ok G) as HG
    by apply dependency_graph_first_match.
  assert (read_edges (write_edges G) = Ok E) as Hread
    by apply read_edges_serialize.
  assert (length (dump_attrs (gather data [] []).2) = length gates) as Hattr.
  { unfold gates, dump_attrs. rewrite gather_acc. cbn [fst snd app].
    by rewrite !length_fmap, length_imap. }
  assert (length E = length (edge_list G)) as HlenE by apply length_fmap.
  exists G, (write_edges G), (dump_attrs (gather data [] []).2).
  split; [done |]. split.
  { unfold create_dependency. fold gates in HG |- *.
    destruct (gather data [] []) as [gs attr] eqn:Hgather.
    cbn [fst snd] in *. subst gates. by rewrite HG. }
  split; [done |]. split; [done |].
  destruct (init_counts_edges_read name (write_edges G) E Hread)
    as [Hnum Hlen].
  rewrite HlenE in Hnum, Hlen. split; [done |]. split; [done |].
  intros Hne s.
  assert (E ≠ []) as HneE by (intros HE; by rewrite HE in HlenE; destruct (edge_list G)).
  assert (fit_long E = true) as Hfit.
  { unfold fit_long. apply forallb_forall. intros e He.
    apply list_elem_of_In, list_elem_of_fmap in He as ([u v] & -> & He).
    apply elem_of_edge_list in He
      as (row & [Hu ->]%first_match_graph_lookup_inv & Hv).
    apply elem_of_row_of in Hv as [_ Hv]. unfold fits_long. cbn [fst snd].
    apply andb_true_intro. split; apply andb_true_intro; split;
      (apply Z.leb_le || apply Z.ltb_lt); lia. }
  unfold s. rewrite (process_2D to_float _ _ _ E) by done. cbn [fst snd].
  split; [done |]. split.
  - rewrite size_map_seq_0, length_samples_from, Hlen.
    pose proof (length_variants E 2 10) as Hv.
    assert (length E ≠ 0) as Hm by (by destruct E).
    unfold size_formula in Hv.
    cbn [range seq fmap list_fmap foldr Nat.add Nat.sub] in Hv.
    cbn [init max_num_edge_remove num_instances]. lia.
  - intros p d Hp. rewrite lookup_map_seq_0 in Hp.
    apply samples_from_lookup_inv in Hp as (k & v & _ & -> & _). cbn.
    unfold read_features. by rewrite length_fmap.
Qed.

End DatasetExtras.

(** ** The further properties on the circuit of [Example] *)

Section ExtraInputs.
Import Dependency Dataset DatasetFacts.

(** X6 at the example: four edges are read and [len] is 80. *)
Lemma init_counts_edges_read_witness :
  read_edges Example.edge_file = Ok Example.edges
  ∧ num_edges Example.dataset = 4
  ∧ len Example.dataset = 80.
Proof.
  assert (read_edges Example.edge_file = Ok Example.edges) as Hread
    by (vm_compute; reflexivity).
  split; [exact Hread |].
  exact (init_counts_edges_read "circuit" Example.edge_file Example.edges
           Hread).
Defined.

(** X10 at the example: the positions with a file are those below 80. *)
Lemma get_defined_below_len_witness :
  read_edges Example.edge_file = Ok Example.edges
  ∧ fit_long Example.edges = true
  ∧ Example.edges ≠ []
  ∧ ∀ p,
      is_Some
        (get (process Example.exact Example.dataset Example.edge_file
                Example.attr_file ∅).1 p)
      ↔ p < len Example.dataset.
Proof.
  assert (read_edges Example.edge_file = Ok Example.edges) as Hread
    by (vm_compute; reflexivity).
  assert (fit_long Example.edges = true) as Hfit by reflexivity.
  assert (Example.edges ≠ []) as Hne by discriminate.
  split; [exact Hread |]. split; [exact Hfit |]. split; [exact Hne |].
  exact (get_defined_below_len Example.exact "circuit" Example.edge_file
           Example.attr_file Example.edges Hread Hfit Hne).
Defined.

(** X11 at the example: the label at a position is the position divided by
    10. *)
Lemma saved_sample_label_and_edges_witness :
  read_edges Example.edge_file = Ok Example.edges
  ∧ fit_long Example.edges = true
  ∧ Example.edges ≠ []
  ∧ ∀ p d,
      get (process Example.exact Example.dataset Example.edge_file
             Example.attr_file ∅).1 p = Some d →
      y d = p / 10.
Proof.
  assert (read_edges Example.edge_file = Ok Example.edges) as Hread
    by (vm_compute; reflexivity).
  assert (fit_long Example.edges = true) as Hfit by reflexivity.
  assert (Example.edges ≠ []) as Hne by discriminate.
  split; [exact Hread |]. split; [exact Hfit |]. split; [exact Hne |].
  intros p d Hp.
  exact (proj1 (saved_sample_label_and_edges Example.exact Example.dataset
                  Example.edge_file Example.attr_file Example.edges
                  Hread Hfit Hne p d Hp)).
Defined.

(** X13 at the example: its circuit has four two-qubit gates. *)
Lemma circuit_to_dataset_witness :
  (Z.of_nat (length (gather Example.circuit [] []).1) ≤ 2 ^ 63)%Z
  ∧ ∃ G edge_file attr_file,
      create_dependency Example.circuit = Ok (edge_file, attr_file)
      ∧ len (init "circuit" edge_file) = 20 * length (edge_list G).
Proof.
  assert (Z.of_nat (length (gather Example.circuit [] []).1) ≤ 2 ^ 63)%Z
    as Hbound by (vm_compute; discriminate).
  split; [exact Hbound |].
  destruct (circuit_to_dataset Example.exact Example.circuit "circuit" Hbound)
    as (G & edge_file & attr_file & _ & Hcreate & _ & _ & _ & Hlen & _).
  exists G, edge_file, attr_file. split; [exact Hcreate | exact Hlen].
Defined.

End ExtraInputs.
